(** * The particle-field engine of frontend/script.js

    A shallow embedding of the "PARTICLES BACKGROUND (Canvas)" closure of
    [frontend/script.js]: [resizeCanvas], [createParticles], [drawParticles],
    [updateParticles] and [animate].

    JavaScript numbers are IEEE-754 binary64 values.  The engine is written
    once, over an interface [JsNumber] of the arithmetic it uses, and read at
    two instances:
    - [float64]: Rocq's primitive binary64 floats, bit for bit what the
      browser computes; every definition evaluates there;
    - [real]: the same program text over the real numbers, the reading in
      which the specification states its interval and monotonicity facts.

    Properties that only depend on the control flow of the engine are proved
    for every instance of the interface. *)

From Stdlib Require Import List Bool Arith Lia ZArith NArith Ascii String.
From Stdlib Require Import Floats Uint63.
From Stdlib Require Import Reals Lra.
Import ListNotations.

(** ** Numbers *)

(** The arithmetic of the engine: [+ - * /], [Math.sqrt], the comparison [<]
    ([a > b] is [b < a]), integer literals, decimal literals [m * 10^-e] and
    [Math.PI]. *)
Class JsNumber (F : Type) : Type := {
  num_add : F -> F -> F;
  num_sub : F -> F -> F;
  num_mul : F -> F -> F;
  num_div : F -> F -> F;
  num_sqrt : F -> F;
  num_ltb : F -> F -> bool;
  num_of_Z : Z -> F;
  num_dec : Z -> nat -> F;
  num_PI : F
}.

Declare Scope js_scope.
Delimit Scope js_scope with js.
Infix "+" := num_add : js_scope.
Infix "-" := num_sub : js_scope.
Infix "*" := num_mul : js_scope.
Infix "/" := num_div : js_scope.
Infix "<?" := num_ltb (at level 70, no associativity) : js_scope.
Notation "a >? b" := (num_ltb b a) (at level 70, no associativity) : js_scope.

(** *** binary64 *)

Definition float_of_Z (z : Z) : float :=
  match z with
  | Z0 => PrimFloat.zero
  | Zpos _ => PrimFloat.of_uint63 (Uint63.of_Z z)
  | Zneg p => PrimFloat.opp (PrimFloat.of_uint63 (Uint63.of_Z (Zpos p)))
  end.

(** A decimal literal: both [m] and [10^e] are exact in binary64 for the
    literals of the script, and the division rounds to nearest, as the
    parser of the literal does. *)
Definition float_dec (m : Z) (e : nat) : float :=
  PrimFloat.div (float_of_Z m) (float_of_Z (10 ^ Z.of_nat e)).

#[export] Instance float64 : JsNumber float := {
  num_add := PrimFloat.add;
  num_sub := PrimFloat.sub;
  num_mul := PrimFloat.mul;
  num_div := PrimFloat.div;
  num_sqrt := PrimFloat.sqrt;
  num_ltb := PrimFloat.ltb;
  num_of_Z := float_of_Z;
  num_dec := float_dec;
  num_PI := 0x1.921fb54442d18p+1%float
}.

(** *** Real numbers *)

Definition Rltb (a b : R) : bool := if Rlt_dec a b then true else false.

Definition R_dec (m : Z) (e : nat) : R := (IZR m / IZR (10 ^ Z.of_nat e))%R.

#[export] Instance real : JsNumber R := {
  num_add := Rplus;
  num_sub := Rminus;
  num_mul := Rmult;
  num_div := Rdiv;
  num_sqrt := sqrt;
  num_ltb := Rltb;
  num_of_Z := IZR;
  num_dec := R_dec;
  num_PI := PI
}.

(** ** Data *)

Section Engine.

Context {F : Type} `{JsNumber F}.
Local Open Scope string_scope.
Local Open Scope list_scope.
Local Open Scope js_scope.

(** A particle object, with the properties [createParticles] gives it. *)
Record Particle : Type := {
  x : F;
  y : F;
  vx : F;
  vy : F;
  radius : F;
  opacity : F;
  color : string
}.

(** [p.x = v] and [p.y = v]: assignment to one property of the object. *)
Definition set_x (p : Particle) (v : F) : Particle :=
  {| x := v; y := y p; vx := vx p; vy := vy p;
     radius := radius p; opacity := opacity p; color := color p |}.

Definition set_y (p : Particle) (v : F) : Particle :=
  {| x := x p; y := v; vx := vx p; vy := vy p;
     radius := radius p; opacity := opacity p; color := color p |}.

(** The [canvas] element, as far as the engine reads and writes it. *)
Record Canvas : Type := {
  width : F;
  height : F
}.

(** The variables of the closure: [canvas] and [particles].  Every element
    of [particles] is an object of its own (each [push] allocates one), so
    the array is a list of records. *)
Record State : Type := {
  canvas : Canvas;
  particles : list Particle
}.

(** What a call leaves behind outside the closure: the calls and property
    writes on the 2D context [ctx], in program order, and the request for
    the next animation frame. *)
Inductive Effect : Type :=
| ClearRect (x0 y0 w h : F)
| BeginPath
| Arc (cx cy r a0 a1 : F)
| SetFillStyle (rgb : string) (alpha : F)
| Fill
| SetStrokeStyle (rgb : string) (alpha : F)
| SetLineWidth (w : F)
| MoveTo (px py : F)
| LineTo (px py : F)
| Stroke
| RequestAnimationFrame.

Definition NUM_PARTICLES : nat := 80.
Definition MAX_DISTANCE : F := num_of_Z 140.

(** ** resizeCanvas *)

(** [innerWidth] and [innerHeight] are the window's, read at the call; they
    are non-negative integers, which the canvas stores as they are. *)
Definition resizeCanvas (innerWidth innerHeight : F) (s : State) : State :=
  {| canvas := {| width := innerWidth; height := innerHeight |};
     particles := particles s |}.

(** ** createParticles *)

(** [random k] is what the [k]-th call of [Math.random()] returns.  The
    object literal calls it seven times, in the order of its properties. *)
Definition newParticle (random : nat -> F) (c : Canvas) (k : nat) : Particle :=
  {| x := random k * width c;
     y := random (k + 1)%nat * height c;
     vx := (random (k + 2)%nat - num_dec 5 1) * num_dec 6 1;
     vy := (random (k + 3)%nat - num_dec 5 1) * num_dec 6 1;
     radius := num_dec 15 1 + random (k + 4)%nat * num_of_Z 2;
     opacity := num_dec 2 1 + random (k + 5)%nat * num_dec 6 1;
     color := if random (k + 6)%nat >? num_dec 5 1 then "#00d4ff" else "#7b2cbf" |}.

(** [for (let i = 0; i < NUM_PARTICLES; i++) particles.push({...})], with
    [n] the iterations left. *)
Fixpoint createLoop (random : nat -> F) (c : Canvas) (n i : nat)
    (ps : list Particle) : list Particle :=
  match n with
  | O => ps
  | S n' => createLoop random c n' (S i) (ps ++ [newParticle random c (7 * i)])
  end.

Definition createParticles (random : nat -> F) (s : State) : State :=
  {| canvas := canvas s;
     particles := createLoop random (canvas s) NUM_PARTICLES 0 [] |}.

(** ** drawParticles *)

(** The body of [for (const p of particles)]: one filled circle. *)
Definition drawCircle (p : Particle) : list Effect :=
  let rgb := if String.eqb (color p) "#00d4ff" then "0,212,255" else "123,44,191" in
  [ BeginPath;
    Arc (x p) (y p) (radius p) (num_of_Z 0) (num_PI * num_of_Z 2);
    SetFillStyle rgb (opacity p);
    Fill ].

(** [Math.sqrt(dx * dx + dy * dy)] of the body of the pair loop. *)
Definition distance (a b : Particle) : F :=
  let dx := x a - x b in
  let dy := y a - y b in
  num_sqrt (dx * dx + dy * dy).

(** The body of the pair loop for [a = particles[i]], [b = particles[j]]. *)
Definition drawLink (a b : Particle) : list Effect :=
  let dist := distance a b in
  if dist <? MAX_DISTANCE then
    let alpha := num_of_Z 1 - dist / MAX_DISTANCE in
    [ SetStrokeStyle "0, 212, 255" (alpha * num_dec 25 2);
      SetLineWidth (num_dec 5 1);
      BeginPath;
      MoveTo (x a) (y a);
      LineTo (x b) (y b);
      Stroke ]
  else [].

(** [for (let j = i + 1; j < particles.length; j++)].  Both indices are
    below [particles.length] in every iteration, so the reads
    [particles[i]] and [particles[j]] find an object. *)
Definition innerLoop (ps : list Particle) (i : nat) : list Effect :=
  flat_map
    (fun j =>
       match nth_error ps i, nth_error ps j with
       | Some a, Some b => drawLink a b
       | _, _ => []
       end)
    (seq (S i) (List.length ps - S i)).

(** [for (let i = 0; i < particles.length; i++)]. *)
Definition linkLoop (ps : list Particle) : list Effect :=
  flat_map (innerLoop ps) (seq 0 (List.length ps)).

Definition drawParticles (s : State) : list Effect :=
  ClearRect (num_of_Z 0) (num_of_Z 0) (width (canvas s)) (height (canvas s))
  :: flat_map drawCircle (particles s)
  ++ linkLoop (particles s).

(** ** updateParticles *)

(** The body of [for (const p of particles)]: six statements on [p]. *)
Definition updateParticle (c : Canvas) (p : Particle) : Particle :=
  let p := set_x p (x p + vx p) in
  let p := set_y p (y p + vy p) in
  let p := if x p <? num_of_Z 0 then set_x p (width c) else p in
  let p := if x p >? width c then set_x p (num_of_Z 0) else p in
  let p := if y p <? num_of_Z 0 then set_y p (height c) else p in
  let p := if y p >? height c then set_y p (num_of_Z 0) else p in
  p.

Definition updateParticles (s : State) : State :=
  {| canvas := canvas s;
     particles := map (updateParticle (canvas s)) (particles s) |}.

(** ** animate *)

(** One call of [animate]: the state it leaves and its effects in order. *)
Definition animate (s : State) : State * list Effect :=
  let s' := updateParticles s in
  (s', drawParticles s' ++ [RequestAnimationFrame]).

(** ** Runs of the page *)

(** After start-up the event loop runs two callbacks of the closure: the
    frame callback [animate] and the resize listener [resizeCanvas]. *)
Inductive Callback : Type :=
| Frame
| Resize (innerWidth innerHeight : F).

Definition step (s : State) (cb : Callback) : State * list Effect :=
  match cb with
  | Frame => animate s
  | Resize w h => (resizeCanvas w h s, [])
  end.

Fixpoint run (s : State) (cbs : list Callback) : State * list Effect :=
  match cbs with
  | [] => (s, [])
  | cb :: rest =>
      let (s1, t1) := step s cb in
      let (s2, t2) := run s1 rest in
      (s2, t1 ++ t2)
  end.

(** The statements the closure runs when the script loads and the page has
    the canvas element (without it the closure returns at once), on the
    canvas [c0] with [let particles = []]:
    [resizeCanvas(); createParticles(); animate();]. *)
Definition start (c0 : Canvas) (innerWidth innerHeight : F)
    (random : nat -> F) : State * list Effect :=
  let s0 := {| canvas := c0; particles := [] |} in
  animate (createParticles random (resizeCanvas innerWidth innerHeight s0)).

End Engine.

Arguments Particle F : clear implicits.
Arguments Canvas F : clear implicits.
Arguments State F : clear implicits.
Arguments Effect F : clear implicits.
Arguments Callback F : clear implicits.

(** ** Derived views used by the statements *)

Section Views.

Context {F : Type} `{JsNumber F}.
Local Open Scope js_scope.

(** What [createParticles] fixes for the life of a particle. *)
Definition fixedPart (p : Particle F) : F * F * F * F * string :=
  (vx p, vy p, radius p, opacity p, color p).

(** The two wraparound statements of [updateParticle] on one axis of
    dimension [d], run on the coordinate [v] the velocity was added to. *)
Definition wrapAxis (d v : F) : F :=
  let v := if v <? num_of_Z 0 then d else v in
  if v >? d then num_of_Z 0 else v.

(** The index pairs the two nested loops of [drawParticles] visit, in the
    order they visit them, for an array of length [n]. *)
Definition linkPairs (n : nat) : list (nat * nat) :=
  flat_map (fun i => map (pair i) (seq (S i) (n - S i))) (seq 0 n).

(** The body of the inner loop at the index pair [(i, j)]. *)
Definition linkAt (ps : list (Particle F)) (ij : nat * nat) : list (Effect F) :=
  match nth_error ps (fst ij), nth_error ps (snd ij) with
  | Some a, Some b => drawLink a b
  | _, _ => []
  end.

(** A trace strokes the segment from [a] to [b]. *)
Definition drawsSegment (a b : Particle F) (t : list (Effect F)) : Prop :=
  exists pre post,
    t = pre ++ MoveTo (x a) (y a) :: LineTo (x b) (y b) :: Stroke :: post.

Definition isStroke (e : Effect F) : bool :=
  match e with Stroke => true | _ => false end.

Definition isFill (e : Effect F) : bool :=
  match e with Fill => true | _ => false end.

Definition isRequest (e : Effect F) : bool :=
  match e with RequestAnimationFrame => true | _ => false end.

(** Trace orders: no [fill] of a circle comes before a [stroke] of a link,
    and the other way round. *)
Definition linksBeforeCircles (t : list (Effect F)) : Prop :=
  forall pre post, t = pre ++ Stroke :: post -> ~ In Fill pre.

Definition circlesBeforeLinks (t : list (Effect F)) : Prop :=
  forall pre post, t = pre ++ Fill :: post -> ~ In Stroke pre.

End Views.

(** Boxes over the reals: the half-open one of the specification and the
    closed one. *)
Definition inHalfOpenBox (c : Canvas R) (p : Particle R) : Prop :=
  (0 <= x p < width c /\ 0 <= y p < height c)%R.

Definition inClosedBox (c : Canvas R) (p : Particle R) : Prop :=
  (0 <= x p <= width c /\ 0 <= y p <= height c)%R.

(** The half-open box as the script's own comparisons decide it. *)
Definition inHalfOpenBoxb {F : Type} `{JsNumber F} (c : Canvas F)
    (p : Particle F) : bool :=
  (negb (x p <? num_of_Z 0) && (x p <? width c)
   && negb (y p <? num_of_Z 0) && (y p <? height c))%js.

(** The wraparound rule in the specification's words: a coordinate below 0
    is set to the dimension, one that exceeds the dimension is set to 0. *)
Definition wrapRule {F : Type} `{JsNumber F} (d v : F) : F :=
  (if v <? num_of_Z 0 then d else if v >? d then num_of_Z 0 else v)%js.

(** [a === a] in binary64: false for NaN only. *)
Definition isNumber (a : float) : bool := PrimFloat.eqb a a.

(** The alpha values written to [ctx.strokeStyle], in program order. *)
Definition strokeAlphas {F : Type} (t : list (Effect F)) : list F :=
  flat_map (fun e => match e with SetStrokeStyle _ al => [al] | _ => [] end) t.

(** ** Concrete inputs *)

Section Samples.

Context {F : Type} `{JsNumber F}.
Local Open Scope string_scope.
Local Open Scope js_scope.

(** An 800 x 600 canvas. *)
Definition sampleCanvas : Canvas F :=
  {| width := num_of_Z 800; height := num_of_Z 600 |}.

(** A particle inside the canvas that is about to cross its left edge:
    [x = 0.125], [vx = -0.25]. *)
Definition leftEdgeParticle : Particle F :=
  {| x := num_dec 125 3; y := num_of_Z 300;
     vx := num_dec (-25) 2; vy := num_dec 25 2;
     radius := num_of_Z 2; opacity := num_dec 5 1; color := "#00d4ff" |}.

(** The particle of the specification's wraparound example:
    [x = width - 0.05], [vx = 0.3]. *)
Definition rightEdgeParticle : Particle F :=
  {| x := num_of_Z 800 - num_dec 5 2; y := num_of_Z 300;
     vx := num_dec 3 1; vy := num_dec 25 2;
     radius := num_of_Z 2; opacity := num_dec 5 1; color := "#00d4ff" |}.

(** A particle that leaves through the left and the bottom edge at once. *)
Definition cornerParticle : Particle F :=
  {| x := num_dec 125 3; y := num_of_Z 600;
     vx := num_dec (-25) 2; vy := num_dec 25 2;
     radius := num_of_Z 2; opacity := num_dec 5 1; color := "#7b2cbf" |}.

(** Two particles at rest, 30 apart, and a third one 400 away. *)
Definition restingAt (px py : Z) : Particle F :=
  {| x := num_of_Z px; y := num_of_Z py;
     vx := num_of_Z 0; vy := num_of_Z 0;
     radius := num_of_Z 2; opacity := num_dec 5 1; color := "#7b2cbf" |}.

Definition sampleState : State F :=
  {| canvas := sampleCanvas;
     particles := [restingAt 100 100; restingAt 130 100; restingAt 500 100] |}.

(** The three edge particles on the sample canvas. *)
Definition edgeState : State F :=
  {| canvas := sampleCanvas;
     particles := [leftEdgeParticle; rightEdgeParticle; cornerParticle] |}.

End Samples.

(** Two binary64 particles at rest whose [x] are neighbouring doubles,
    [50] and [50 + 2^-47]. *)
Definition stepApart : Particle float * Particle float :=
  (restingAt 50 100,
   {| x := 0x1.9000000000001p+5%float; y := num_of_Z 100;
      vx := num_of_Z 0; vy := num_of_Z 0;
      radius := num_of_Z 2; opacity := num_dec 5 1; color := "#7b2cbf"%string |}).

(** ** Views of creation and of runs *)

(** The ranges [createParticles] draws the fixed properties from, over the
    reals: velocity per axis in [[-0.3, 0.3)], radius in [[1.5, 3.5)],
    opacity in [[0.2, 0.8)], one of the two colours. *)
Definition rangesOf (fp : R * R * R * R * string) : Prop :=
  let '(pvx, pvy, pradius, popacity, pcolor) := fp in
  (-0.3 <= pvx < 0.3 /\ -0.3 <= pvy < 0.3 /\
   1.5 <= pradius < 3.5 /\ 0.2 <= popacity < 0.8)%R /\
  (pcolor = "#00d4ff"%string \/ pcolor = "#7b2cbf"%string).

Definition inCreationRanges (p : Particle R) : Prop := rangesOf (fixedPart p).

(** A resize to a window of non-negative size. *)
Definition nonnegResize (cb : Callback R) : Prop :=
  match cb with
  | Frame => True
  | Resize w h => (0 <= w /\ 0 <= h)%R
  end.

Definition isFrame {F : Type} (cb : Callback F) : bool :=
  match cb with Frame => true | Resize _ _ => false end.

Definition isClearRect {F : Type} (e : Effect F) : bool :=
  match e with ClearRect _ _ _ _ => true | _ => false end.

(** * The page around the engine

    The event handlers of [frontend/script.js] outside the particle
    closure, for a page that has all the elements the script looks up.
    A JavaScript string is its sequence of UTF-16 code units. *)

Module Page.

Definition jsstring : Type := list N.

(** An ASCII literal of the script. *)
Definition lit (s : string) : jsstring :=
  map N_of_ascii (list_ascii_of_string s).

Fixpoint str_eqb (a b : jsstring) : bool :=
  match a, b with
  | [], [] => true
  | c :: a', d :: b' => N.eqb c d && str_eqb a' b'
  | _, _ => false
  end.

(** ** Strings: [split], [trim], [join] *)

(** WhiteSpace and LineTerminator code units, which [trim] strips: TAB, LF,
    VT, FF, CR, SP, NBSP, the space separators of the BMP, LS, PS and the
    byte order mark. *)
Definition isWhiteSpace (c : N) : bool :=
  (((9 <=? c) && (c <=? 13)) || (c =? 32) || (c =? 160) || (c =? 5760)
   || ((8192 <=? c) && (c <=? 8202)) || (c =? 8232) || (c =? 8233)
   || (c =? 8239) || (c =? 8287) || (c =? 12288) || (c =? 65279))%N.

Fixpoint trimStart (s : jsstring) : jsstring :=
  match s with
  | c :: r => if isWhiteSpace c then trimStart r else s
  | [] => []
  end.

Definition trimEnd (s : jsstring) : jsstring := rev (trimStart (rev s)).

Definition trim (s : jsstring) : jsstring := trimEnd (trimStart s).

(** [s.split(sep)] for a separator of one code unit; [cur] is the piece
    being read, reversed. *)
Fixpoint splitFrom (sep : N) (cur s : jsstring) : list jsstring :=
  match s with
  | [] => [rev cur]
  | c :: r =>
      if N.eqb c sep then rev cur :: splitFrom sep [] r
      else splitFrom sep (c :: cur) r
  end.

Definition split (sep : N) (s : jsstring) : list jsstring := splitFrom sep [] s.

(** [pieces.join(sep)]. *)
Fixpoint join (sep : jsstring) (pieces : list jsstring) : jsstring :=
  match pieces with
  | [] => []
  | [p] => p
  | p :: rest => p ++ sep ++ join sep rest
  end.

Definition LF : N := 10.

(** ** Values of a parsed JSON body *)

#[local] Set Warnings "-register-all".

Inductive Value : Type :=
| VUndefined
| VNull
| VBool (b : bool)
| VNumber (n : float)
| VString (s : jsstring)
| VArray (items : list Value)
| VObject (props : list (jsstring * Value)).

(** ToBoolean, as [||], [!] and [? :] apply it. *)
Definition truthy (v : Value) : bool :=
  match v with
  | VUndefined | VNull => false
  | VBool b => b
  | VNumber n => PrimFloat.eqb n n && negb (PrimFloat.eqb n PrimFloat.zero)
  | VString s => match s with [] => false | _ => true end
  | VArray _ | VObject _ => true
  end.

(** [a || b]. *)
Definition orElse (a b : Value) : Value := if truthy a then a else b.

(** The properties the script reads from a response body. *)
Inductive Key : Type := error | summary | messages_count | date_range.

Definition keyName (k : Key) : jsstring :=
  match k with
  | error => lit "error"
  | summary => lit "summary"
  | messages_count => lit "messages_count"
  | date_range => lit "date_range"
  end.

(** [data.k] for one of these keys: a TypeError ([None]) on [null] and
    [undefined]; the own property of an object, whose keys are distinct
    after [JSON.parse]; [undefined] on the other values, which have no
    property of these names. *)
Definition getProp (data : Value) (k : Key) : option Value :=
  match data with
  | VUndefined | VNull => None
  | VObject props =>
      Some match find (fun kv => str_eqb (fst kv) (keyName k)) props with
           | Some kv => snd kv
           | None => VUndefined
           end
  | _ => Some VUndefined
  end.

(** ** Elements *)

(** A [File] of a file input or of a drop. *)
Record File : Type := { name : jsstring; content : jsstring }.

(** [el.classList]: an ordered set of tokens. *)
Definition classList : Type := list jsstring.

Definition contains (cl : classList) (t : jsstring) : bool :=
  existsb (str_eqb t) cl.

Definition add (cl : classList) (t : jsstring) : classList :=
  if contains cl t then cl else cl ++ [t].

Definition remove (cl : classList) (t : jsstring) : classList :=
  filter (fun u => negb (str_eqb t u)) cl.

Definition toggle (cl : classList) (t : jsstring) : classList :=
  if contains cl t then remove cl t else add cl t.

(** [style.display] of the four cards. *)
Record Panels : Type := {
  loadingSpinner : jsstring;
  resultCard : jsstring;
  errorCard : jsstring;
  placeholderCard : jsstring
}.

(** The form: [chatFile.files] and the [value] of the four inputs. *)
Record Inputs : Type := {
  files : list File;
  startDate : jsstring;
  startTime : jsstring;
  endDate : jsstring;
  endTime : jsstring
}.

(** What the script writes into the cards: the value handed to
    [textContent] (the DOM turns it into text) and [innerHTML]. *)
Record Outputs : Type := {
  errorMessage : Value;
  summaryContent : jsstring;
  msgCount : Value;
  dateRange : Value
}.

(** The file label and the file name under it. *)
Record Labels : Type := {
  fileName_textContent : jsstring;
  fileName_classList : classList;
  fileLabel_classList : classList
}.

Record State : Type := {
  panels : Panels;
  inputs : Inputs;
  outputs : Outputs;
  labels : Labels
}.

Definition set_panels (s : State) (p : Panels) : State :=
  {| panels := p; inputs := inputs s; outputs := outputs s; labels := labels s |}.

Definition set_inputs (s : State) (i : Inputs) : State :=
  {| panels := panels s; inputs := i; outputs := outputs s; labels := labels s |}.

Definition set_outputs (s : State) (o : Outputs) : State :=
  {| panels := panels s; inputs := inputs s; outputs := o; labels := labels s |}.

Definition set_labels (s : State) (l : Labels) : State :=
  {| panels := panels s; inputs := inputs s; outputs := outputs s; labels := l |}.

(** ** showError *)

Definition showError (message : Value) (s : State) : State :=
  let s := set_panels s {| loadingSpinner := lit "none";
                           resultCard := lit "none";
                           errorCard := lit "block";
                           placeholderCard := lit "none" |} in
  set_outputs s {| errorMessage := message;
                   summaryContent := summaryContent (outputs s);
                   msgCount := msgCount (outputs s);
                   dateRange := dateRange (outputs s) |}.

(** ** displayResult *)

(** [data.summary.split('\n').filter(p => p.trim())
      .map(p => `<p>${p.trim()}</p>`).join('')]. *)
Definition formatSummary (text : jsstring) : jsstring :=
  join []
    (map (fun p => lit "<p>" ++ trim p ++ lit "</p>")
       (filter (fun p => truthy (VString (trim p))) (split LF text))).

(** The state [displayResult] leaves and whether it threw: reading
    [summary] of [null] throws, and so does [.split] on a summary that is
    not a string.  The four [display] writes come first and stay. *)
Definition displayResult (data : Value) (s : State) : State * bool :=
  let s := set_panels s {| loadingSpinner := lit "none";
                           resultCard := lit "block";
                           errorCard := lit "none";
                           placeholderCard := lit "none" |} in
  match getProp data summary, getProp data messages_count,
        getProp data date_range with
  | Some (VString text), Some count, Some range =>
      (set_outputs s
         {| errorMessage := errorMessage (outputs s);
            summaryContent := formatSummary text;
            msgCount :=
              orElse count
                (if truthy (VString text) then VString (lit "~")
                 else VNumber PrimFloat.zero);
            dateRange := orElse range (VString (lit "All dates")) |},
       false)
  | _, _, _ => (s, true)
  end.

(** ** The summarize button *)

Inductive FormValue : Type :=
| FormFile (f : File)
| FormText (v : jsstring).

(** The request [fetch] is called with: a POST of the form data to
    [BACKEND_URL + '/api/summarize']. *)
Record Request : Type := {
  url : jsstring;
  body : list (jsstring * FormValue)
}.

Definition BACKEND_URL : jsstring := lit "http://localhost:5000".

(** [if (input.value) formData.append(key, input.value)]. *)
Definition appendIfSet (key : string) (v : jsstring)
    (form : list (jsstring * FormValue)) : list (jsstring * FormValue) :=
  if truthy (VString v) then form ++ [(lit key, FormText v)] else form.

(** The click listener up to its [await fetch(...)]: the state it leaves
    and the request, if it sends one. *)
Definition summarizeClick (s : State) : State * option Request :=
  match files (inputs s) with
  | [] => (showError (VString (lit "Please select a file first")) s, None)
  | file :: _ =>
      let form := [(lit "file", FormFile file)] in
      let form := appendIfSet "startDate" (startDate (inputs s)) form in
      let form := appendIfSet "startTime" (startTime (inputs s)) form in
      let form := appendIfSet "endDate" (endDate (inputs s)) form in
      let form := appendIfSet "endTime" (endTime (inputs s)) form in
      (set_panels s {| loadingSpinner := lit "block";
                       resultCard := lit "none";
                       errorCard := lit "none";
                       placeholderCard := lit "none" |},
       Some {| url := BACKEND_URL ++ lit "/api/summarize"; body := form |})
  end.

(** How [await response.json()] ends. *)
Inductive Body : Type :=
| Parsed (data : Value)
| Unparsable (message : jsstring).

(** How [await fetch(...)] ends: rejected with an error, or resolved with
    a response of status [ok] or not. *)
Inductive Outcome : Type :=
| Rejected (message : jsstring)
| Responded (ok : bool) (b : Body).

Definition networkError (message : jsstring) : Value :=
  VString (lit "Network error: " ++ message).

(** The rest of the click listener, run when the request has ended.
    [typeError k data] is the message of the TypeError the engine throws
    when the script reads [data.k] and what follows it fails: [data.error]
    of [null], or [data.summary.split] where the summary is no string. *)
Definition summarizeSettled (typeError : Key -> Value -> jsstring) (o : Outcome)
    (s : State) : State :=
  match o with
  | Rejected message => showError (networkError message) s
  | Responded _ (Unparsable message) => showError (networkError message) s
  | Responded false (Parsed data) =>
      match getProp data error with
      | Some e => showError (orElse e (VString (lit "An error occurred"))) s
      | None => showError (networkError (typeError error data)) s
      end
  | Responded true (Parsed data) =>
      let (s', threw) := displayResult data s in
      if threw then showError (networkError (typeError summary data)) s' else s'
  end.

(** ** Keyboard shortcut *)

Definition keydown (ctrlKey metaKey : bool) (key : jsstring) (s : State)
    : State * option Request :=
  if (ctrlKey || metaKey) && str_eqb key (lit "Enter") then
    match files (inputs s) with
    | [] => (s, None)
    | _ :: _ => summarizeClick s
    end
  else (s, None).

(** ** File input, drag and drop *)

(** The [change] listener of the file input. *)
Definition fileChange (s : State) : State :=
  match files (inputs s) with
  | file :: _ =>
      set_labels s
        {| fileName_textContent := [10003; 32]%N ++ name file;
           fileName_classList := add (fileName_classList (labels s)) (lit "success");
           fileLabel_classList := fileLabel_classList (labels s) |}
  | [] =>
      set_labels s
        {| fileName_textContent := lit "No file chosen";
           fileName_classList := remove (fileName_classList (labels s)) (lit "success");
           fileLabel_classList := fileLabel_classList (labels s) |}
  end.

Definition set_files (s : State) (fs : list File) : State :=
  set_inputs s {| files := fs;
                  startDate := startDate (inputs s);
                  startTime := startTime (inputs s);
                  endDate := endDate (inputs s);
                  endTime := endTime (inputs s) |}.

Definition set_fileLabel (s : State) (cl : classList) : State :=
  set_labels s {| fileName_textContent := fileName_textContent (labels s);
                  fileName_classList := fileName_classList (labels s);
                  fileLabel_classList := cl |}.

(** The listeners of [dragenter] and [dragover], and of [dragleave]. *)
Definition dragEnter (s : State) : State :=
  set_fileLabel s (add (fileLabel_classList (labels s)) (lit "drag-over")).

Definition dragLeave (s : State) : State :=
  set_fileLabel s (remove (fileLabel_classList (labels s)) (lit "drag-over")).

(** The listeners of [drop], in the order they were added: the highlight
    goes, the dropped files become the input's, and the [change] event
    dispatched on the input runs its listener at once. *)
Definition drop (dropped : list File) (s : State) : State :=
  fileChange (set_files (dragLeave s) dropped).

(** ** Dates *)

(** The click listener of the clear button. *)
Definition clearDates (s : State) : State :=
  set_inputs s {| files := files (inputs s);
                  startDate := [];
                  startTime := lit "00:00";
                  endDate := [];
                  endTime := lit "23:59" |}.

(** The [change] listeners of the two date inputs.  [timeValue v] is the
    time value of [new Date(v)], NaN for an invalid date; [>] and [<] on
    two dates compare their time values. *)
Definition startDateChange (timeValue : jsstring -> float) (s : State) : State :=
  let i := inputs s in
  if truthy (VString (endDate i))
     && PrimFloat.ltb (timeValue (endDate i)) (timeValue (startDate i))
  then set_inputs s {| files := files i; startDate := startDate i;
                       startTime := startTime i; endDate := startDate i;
                       endTime := endTime i |}
  else s.

Definition endDateChange (timeValue : jsstring -> float) (s : State) : State :=
  let i := inputs s in
  if truthy (VString (startDate i))
     && PrimFloat.ltb (timeValue (endDate i)) (timeValue (startDate i))
  then set_inputs s {| files := files i; startDate := endDate i;
                       startTime := startTime i; endDate := endDate i;
                       endTime := endTime i |}
  else s.

(** ** Events of the page *)

(** What the user and the network do to the page, each followed by the
    listeners the script registered for it: choosing files in the file
    input, the drag events on the file label, the clear button, editing a
    date or a time, the summarize button, a key press, and the end of a
    request. *)
Inductive Event : Type :=
| FilesChosen (fs : list File)
| DragEntered
| DragLeft
| Dropped (fs : list File)
| ClearClicked
| StartDateEdited (v : jsstring)
| EndDateEdited (v : jsstring)
| StartTimeEdited (v : jsstring)
| EndTimeEdited (v : jsstring)
| SummarizeClicked
| KeyPressed (ctrlKey metaKey : bool) (key : jsstring)
| RequestSettled (o : Outcome).

Definition handle (timeValue : jsstring -> float) (typeError : Key -> Value -> jsstring)
    (s : State) (e : Event) : State :=
  let i := inputs s in
  match e with
  | FilesChosen fs => fileChange (set_files s fs)
  | DragEntered => dragEnter s
  | DragLeft => dragLeave s
  | Dropped fs => drop fs s
  | ClearClicked => clearDates s
  | StartDateEdited v =>
      startDateChange timeValue
        (set_inputs s {| files := files i; startDate := v;
                         startTime := startTime i; endDate := endDate i;
                         endTime := endTime i |})
  | EndDateEdited v =>
      endDateChange timeValue
        (set_inputs s {| files := files i; startDate := startDate i;
                         startTime := startTime i; endDate := v;
                         endTime := endTime i |})
  | StartTimeEdited v =>
      set_inputs s {| files := files i; startDate := startDate i;
                      startTime := v; endDate := endDate i;
                      endTime := endTime i |}
  | EndTimeEdited v =>
      set_inputs s {| files := files i; startDate := startDate i;
                      startTime := startTime i; endDate := endDate i;
                      endTime := v |}
  | SummarizeClicked => fst (summarizeClick s)
  | KeyPressed c m k => fst (keydown c m k s)
  | RequestSettled o => summarizeSettled typeError o s
  end.

(** Exactly one of the four cards is shown. *)
Definition shown (d : jsstring) : bool := str_eqb d (lit "block").
Definition hidden (d : jsstring) : bool := str_eqb d (lit "none").

Definition displays (p : Panels) : list jsstring :=
  [loadingSpinner p; resultCard p; errorCard p; placeholderCard p].

Definition onePanel (p : Panels) : Prop :=
  List.length (filter shown (displays p)) = 1%nat /\
  List.length (filter hidden (displays p)) = 3%nat.

(** The events of a list, handled in order. *)
Definition handleAll (timeValue : jsstring -> float)
    (typeError : Key -> Value -> jsstring) (s : State) (es : list Event) : State :=
  fold_left (handle timeValue typeError) es s.

(** When both dates are set, the start date is not after the end date,
    as the listeners compare them. *)
Definition datesOrdered (timeValue : jsstring -> float) (i : Inputs) : Prop :=
  startDate i <> [] -> endDate i <> [] ->
  PrimFloat.ltb (timeValue (endDate i)) (timeValue (startDate i)) = false.

(** The text fields a request carries for the four inputs: the non-empty
    ones, in the order the listener appends them. *)
Definition textFields (i : Inputs) : list (jsstring * FormValue) :=
  map (fun kv => (lit (fst kv), FormText (snd kv)))
    (filter (fun kv => truthy (VString (snd kv)))
       [("startDate"%string, startDate i); ("startTime"%string, startTime i);
        ("endDate"%string, endDate i); ("endTime"%string, endTime i)]).

(** ** A page to try the listeners on *)

(** The placeholder card shown, no file chosen, no dates, the default
    times; the sample time value of a date is its length. *)
Definition samplePage : State :=
  {| panels := {| loadingSpinner := lit "none"; resultCard := lit "none";
                  errorCard := lit "none"; placeholderCard := lit "block" |};
     inputs := {| files := []; startDate := []; startTime := lit "00:00";
                  endDate := []; endTime := lit "23:59" |};
     outputs := {| errorMessage := VString []; summaryContent := [];
                   msgCount := VString []; dateRange := VString [] |};
     labels := {| fileName_textContent := lit "No file chosen";
                  fileName_classList := [];
                  fileLabel_classList := [] |} |}.

(** A stand-in for the time value of a date: the number its digits spell,
    20240105 for ['2024-01-05']. *)
Definition sampleTimeValue (v : jsstring) : float :=
  float_of_Z
    (fold_left
       (fun acc c =>
          if ((48 <=? c) && (c <=? 57))%N then (acc * 10 + Z.of_N (c - 48))%Z
          else acc)
       v 0%Z).

Definition sampleTypeError (k : Key) (data : Value) : jsstring :=
  lit "Cannot read properties of null".

(** ** Hamburger menu *)

Record Menu : Type := { hamburger : classList; navMenu : classList }.

Definition hamburgerClick (m : Menu) : Menu :=
  {| hamburger := toggle (hamburger m) (lit "active");
     navMenu := toggle (navMenu m) (lit "active") |}.

Definition navLinkClick (m : Menu) : Menu :=
  {| hamburger := remove (hamburger m) (lit "active");
     navMenu := remove (navMenu m) (lit "active") |}.

Definition menuOpen (m : Menu) : bool := contains (navMenu m) (lit "active").

Inductive MenuEvent : Type := HamburgerClicked | NavLinkClicked.

Definition menuHandle (m : Menu) (e : MenuEvent) : Menu :=
  match e with
  | HamburgerClicked => hamburgerClick m
  | NavLinkClicked => navLinkClick m
  end.

(** ** Copy button *)

(** [copyBtn.innerHTML] and the callbacks handed to [setTimeout] that
    have not run yet, oldest first, each with the [originalText] it
    holds.  All have the same delay, so they run in this order. *)
Record CopyButton : Type := {
  copyBtn_innerHTML : jsstring;
  pending : list jsstring
}.

Definition COPIED : jsstring := [10003; 32]%N ++ lit "Copied!".

(** The click listener after [await navigator.clipboard.writeText(text)]
    has ended well: it reads the label, replaces it and sets the timer.
    When the write fails the listener only calls [alert]. *)
Definition copied (b : CopyButton) : CopyButton :=
  {| copyBtn_innerHTML := COPIED;
     pending := pending b ++ [copyBtn_innerHTML b] |}.

(** The oldest pending timer callback runs. *)
Definition timerFired (b : CopyButton) : CopyButton :=
  match pending b with
  | [] => b
  | originalText :: rest =>
      {| copyBtn_innerHTML := originalText; pending := rest |}
  end.

End Page.

(** * The literals of the script in binary64 *)

(** [float_dec] gives the double a JavaScript parser reads the decimal
    literal as. *)
Lemma binary64_literals :
  num_dec 5 1 = 0.5%float /\
  num_dec 25 2 = 0.25%float /\
  num_dec 15 1 = 1.5%float /\
  num_dec 6 1 = 0x1.3333333333333p-1%float /\
  num_dec 2 1 = 0x1.999999999999ap-3%float /\
  num_dec 3 1 = 0x1.3333333333333p-2%float /\
  num_dec 5 2 = 0x1.999999999999ap-5%float /\
  num_of_Z 140 = 140%float.
Proof. repeat split. Qed.

(** * Properties of the control flow, for every number instance *)

(** Split the conjunctions a goal shows, without unfolding definitions. *)
Ltac conjs := repeat match goal with |- _ /\ _ => split end.

(** Case analysis on the innermost test of a conditional. *)
Ltac case_if :=
  match goal with
  | |- context [if ?b then _ else _] =>
      lazymatch b with
      | context [if _ then _ else _] => fail
      | _ => destruct b eqn:?
      end
  end.

Section Structure.

Context {F : Type} `{JsNumber F}.
Local Open Scope js_scope.

Lemma createLoop_length (random : nat -> F) (c : Canvas F) (n i : nat)
    (ps : list (Particle F)) :
  List.length (createLoop random c n i ps) = (List.length ps + n)%nat.
Proof.
  revert i ps; induction n as [|n IH]; intros i ps; simpl.
  - lia.
  - rewrite IH, length_app; simpl; lia.
Qed.

Lemma createParticles_length (random : nat -> F) (s : State F) :
  List.length (particles (createParticles random s)) = NUM_PARTICLES.
Proof.
  unfold createParticles; cbn [particles].
  now rewrite createLoop_length.
Qed.

Lemma updateParticle_fixedPart (c : Canvas F) (p : Particle F) :
  fixedPart (updateParticle c p) = fixedPart p.
Proof.
  unfold updateParticle; cbv zeta.
  repeat match goal with |- context [if ?b then _ else _] => destruct b end;
    reflexivity.
Qed.

Lemma updateParticle_x (c : Canvas F) (p : Particle F) :
  x (updateParticle c p) = wrapAxis (width c) (x p + vx p).
Proof.
  unfold updateParticle, wrapAxis; cbv zeta; cbn [x y vx vy set_x set_y].
  repeat (case_if; cbn [x y vx vy set_x set_y]); congruence.
Qed.

Lemma updateParticle_y (c : Canvas F) (p : Particle F) :
  y (updateParticle c p) = wrapAxis (height c) (y p + vy p).
Proof.
  unfold updateParticle, wrapAxis; cbv zeta; cbn [x y vx vy set_x set_y].
  repeat (case_if; cbn [x y vx vy set_x set_y]); congruence.
Qed.

Lemma updateParticles_fixedPart (s : State F) :
  map fixedPart (particles (updateParticles s)) = map fixedPart (particles s).
Proof.
  unfold updateParticles; simpl; rewrite map_map.
  apply map_ext; intro p; apply updateParticle_fixedPart.
Qed.

Lemma step_fixedPart (s : State F) (cb : Callback F) :
  map fixedPart (particles (fst (step s cb))) = map fixedPart (particles s).
Proof. destruct cb; simpl; [apply updateParticles_fixedPart | reflexivity]. Qed.

Lemma run_fixedPart (cbs : list (Callback F)) (s : State F) :
  map fixedPart (particles (fst (run s cbs))) = map fixedPart (particles s).
Proof.
  revert s; induction cbs as [|cb rest IH]; intro s; simpl; [reflexivity|].
  pose proof (step_fixedPart s cb) as Hs.
  destruct (step s cb) as [s1 t1]; simpl in Hs.
  specialize (IH s1); destruct (run s1 rest) as [s2 t2]; simpl in *.
  congruence.
Qed.

Lemma run_length (cbs : list (Callback F)) (s : State F) :
  List.length (particles (fst (run s cbs))) = List.length (particles s).
Proof.
  rewrite <- (length_map fixedPart), run_fixedPart; apply length_map.
Qed.

End Structure.

(** ** The pair loop *)

Section PairLoop.

Context {F : Type} `{JsNumber F}.
Local Open Scope string_scope.
Local Open Scope list_scope.
Local Open Scope js_scope.

Lemma in_linkPairs (n i j : nat) :
  In (i, j) (linkPairs n) <-> (i < j < n)%nat.
Proof.
  unfold linkPairs; rewrite in_flat_map; split.
  - intros (k & Hk & Hin).
    apply in_map_iff in Hin as (m & Heq & Hm).
    inversion Heq; subst.
    apply in_seq in Hk; apply in_seq in Hm; lia.
  - intros Hij; exists i; split.
    + apply in_seq; lia.
    + apply in_map, in_seq; lia.
Qed.

Lemma NoDup_pair_rows (g : nat -> list nat) (l : list nat) :
  NoDup l -> (forall i, NoDup (g i)) ->
  NoDup (flat_map (fun i => map (pair i) (g i)) l).
Proof.
  intros Hl Hg; induction Hl as [|a l Ha Hl IH]; simpl.
  - constructor.
  - apply NoDup_app.
    + specialize (Hg a); induction Hg as [|b r Hb Hr IHr]; simpl; constructor; auto.
      rewrite in_map_iff; intros (b' & Heq & Hin); inversion Heq; subst; auto.
    + exact IH.
    + intros [i j] Hrow Hrest.
      apply in_map_iff in Hrow as (b & Heq & _); inversion Heq; subst.
      apply in_flat_map in Hrest as (k & Hk & Hin).
      apply in_map_iff in Hin as (b' & Heq' & _); inversion Heq'; subst; auto.
Qed.

Lemma NoDup_linkPairs (n : nat) : NoDup (linkPairs n).
Proof.
  unfold linkPairs; apply NoDup_pair_rows.
  - apply seq_NoDup.
  - intro i; apply seq_NoDup.
Qed.

Lemma innerLoop_linkAt (ps : list (Particle F)) (i : nat) :
  innerLoop ps i =
  flat_map (linkAt ps) (map (pair i) (seq (S i) (List.length ps - S i))).
Proof.
  unfold innerLoop.
  induction (seq (S i) (List.length ps - S i)) as [|j js IH]; simpl.
  - reflexivity.
  - now rewrite IH.
Qed.

Lemma linkLoop_linkPairs (ps : list (Particle F)) :
  linkLoop ps = flat_map (linkAt ps) (linkPairs (List.length ps)).
Proof.
  unfold linkLoop, linkPairs.
  induction (seq 0 (List.length ps)) as [|i rest IH]; simpl.
  - reflexivity.
  - now rewrite flat_map_app, IH, innerLoop_linkAt.
Qed.

(** What [drawLink] emits: nothing, or the six statements ending in the
    stroke of the segment from [a] to [b]. *)
Lemma drawLink_near (a b : Particle F) :
  (distance a b <? MAX_DISTANCE) = true ->
  drawLink a b =
  [ SetStrokeStyle "0, 212, 255"
      ((num_of_Z 1 - distance a b / MAX_DISTANCE) * num_dec 25 2);
    SetLineWidth (num_dec 5 1);
    BeginPath;
    MoveTo (x a) (y a);
    LineTo (x b) (y b);
    Stroke ].
Proof. unfold drawLink; cbv zeta; intros ->; reflexivity. Qed.

Lemma drawLink_far (a b : Particle F) :
  (distance a b <? MAX_DISTANCE) = false -> drawLink a b = [].
Proof. unfold drawLink; cbv zeta; intros ->; reflexivity. Qed.

Lemma drawLink_strokes (a b : Particle F) :
  List.length (filter isStroke (drawLink a b)) =
  if distance a b <? MAX_DISTANCE then 1%nat else 0%nat.
Proof.
  destruct (distance a b <? MAX_DISTANCE) eqn:E.
  - now rewrite drawLink_near.
  - now rewrite drawLink_far.
Qed.

Lemma drawLink_no_fill (a b : Particle F) :
  ~ In Fill (drawLink a b).
Proof.
  destruct (distance a b <? MAX_DISTANCE) eqn:E.
  - rewrite drawLink_near by assumption; simpl.
    intros [Hc|[Hc|[Hc|[Hc|[Hc|[Hc|[]]]]]]]; discriminate Hc.
  - rewrite drawLink_far by assumption; intros [].
Qed.

Lemma linkLoop_no_fill (ps : list (Particle F)) :
  ~ In Fill (linkLoop ps).
Proof.
  rewrite linkLoop_linkPairs, in_flat_map.
  intros ([i j] & _ & Hin); unfold linkAt in Hin; simpl in Hin.
  destruct (nth_error ps i), (nth_error ps j); try contradiction.
  revert Hin; apply drawLink_no_fill.
Qed.

Lemma drawCircle_no_stroke (ps : list (Particle F)) :
  ~ In Stroke (flat_map drawCircle ps).
Proof.
  rewrite in_flat_map; intros (p & _ & Hin); simpl in Hin.
  destruct Hin as [Hc|[Hc|[Hc|[Hc|[]]]]]; discriminate Hc.
Qed.

Lemma app_cut_left (A : Type) (l1 l2 pre post : list A) (a : A) :
  l1 ++ l2 = pre ++ a :: post -> ~ In a l2 ->
  exists post', l1 = pre ++ a :: post'.
Proof.
  revert l1; induction pre as [|c pre IH]; intros [|b l1] Heq Hnot; simpl in *.
  - subst l2; exfalso; apply Hnot; now left.
  - inversion Heq; subst; now exists l1.
  - subst l2; exfalso; apply Hnot; right; apply in_or_app; right; now left.
  - inversion Heq; subst.
    destruct (IH l1 H2 Hnot) as (post' & ->); now exists post'.
Qed.

End PairLoop.

(** ** One frame *)

Section FrameTrace.

Context {F : Type} `{JsNumber F}.
Local Open Scope string_scope.
Local Open Scope list_scope.
Local Open Scope js_scope.

Lemma updateParticle_eq (c : Canvas F) (p : Particle F) :
  updateParticle c p =
  set_y (set_x p (wrapAxis (width c) (x p + vx p)))
        (wrapAxis (height c) (y p + vy p)).
Proof.
  pose proof (updateParticle_x c p) as Hx.
  pose proof (updateParticle_y c p) as Hy.
  pose proof (updateParticle_fixedPart c p) as Hf.
  destruct (updateParticle c p); unfold fixedPart, set_x, set_y in *;
    simpl in *; congruence.
Qed.

Lemma filter_flat_map_nil (A B : Type) (keep : B -> bool) (f : A -> list B)
    (l : list A) :
  (forall a, filter keep (f a) = []) -> filter keep (flat_map f l) = [].
Proof.
  intro Hf; induction l as [|a l IH]; simpl; [reflexivity|].
  now rewrite filter_app, Hf, IH.
Qed.

Lemma drawCircle_no_request (ps : list (Particle F)) :
  filter isRequest (flat_map drawCircle ps) = [].
Proof. apply filter_flat_map_nil; intro p; reflexivity. Qed.

Lemma linkLoop_no_request (ps : list (Particle F)) :
  filter isRequest (linkLoop ps) = [].
Proof.
  rewrite linkLoop_linkPairs; apply filter_flat_map_nil; intros [i j].
  unfold linkAt; simpl.
  destruct (nth_error ps i) as [a|], (nth_error ps j) as [b|]; try reflexivity.
  unfold drawLink; cbv zeta; now destruct (distance a b <? MAX_DISTANCE).
Qed.

Lemma drawParticles_circlesBeforeLinks (s : State F) :
  circlesBeforeLinks (drawParticles s ++ [RequestAnimationFrame]).
Proof.
  intros pre post Heq Hin.
  unfold drawParticles in Heq.
  change (ClearRect (num_of_Z 0) (num_of_Z 0) (width (canvas s)) (height (canvas s))
          :: flat_map drawCircle (particles s) ++ linkLoop (particles s))
    with ((ClearRect (num_of_Z 0) (num_of_Z 0) (width (canvas s)) (height (canvas s))
           :: flat_map drawCircle (particles s)) ++ linkLoop (particles s)) in Heq.
  rewrite <- app_assoc in Heq.
  apply app_cut_left in Heq as (post' & Heq).
  - assert (Hs : In Stroke
              (ClearRect (num_of_Z 0) (num_of_Z 0) (width (canvas s)) (height (canvas s))
               :: flat_map drawCircle (particles s))).
    { rewrite Heq; apply in_or_app; now left. }
    destruct Hs as [Hc|Hs]; [discriminate Hc|].
    revert Hs; apply drawCircle_no_stroke.
  - intro Hf; apply in_app_or in Hf as [Hf|[Hc|[]]].
    + revert Hf; apply linkLoop_no_fill.
    + discriminate Hc.
Qed.

End FrameTrace.

(** * The properties that hold for every number instance *)

(** C9. Count invariant: [createParticles] leaves exactly
    [NUM_PARTICLES = 80] particles, and the array has that many elements
    after start-up and after any sequence of frame and resize callbacks;
    [updateParticles] and a whole frame ([animate], whose rendering
    [drawParticles] only emits effects) keep the length of the array. *)
Theorem particle_count_invariant {F : Type} `{JsNumber F}
    (c0 : Canvas F) (innerWidth innerHeight : F) (random : nat -> F)
    (cbs : list (Callback F)) :
  NUM_PARTICLES = 80%nat /\
  (forall s, List.length (particles (createParticles random s)) = NUM_PARTICLES) /\
  List.length (particles (fst (start c0 innerWidth innerHeight random)))
    = NUM_PARTICLES /\
  List.length
    (particles (fst (run (fst (start c0 innerWidth innerHeight random)) cbs)))
    = NUM_PARTICLES /\
  (forall s, List.length (particles (updateParticles s))
             = List.length (particles s)) /\
  (forall s, List.length (particles (fst (animate s)))
             = List.length (particles s)).
Proof.
  assert (Hupd : forall s : State F,
             List.length (particles (updateParticles s))
             = List.length (particles s)).
  { intro s; unfold updateParticles; cbn [particles]; apply length_map. }
  assert (Hstart :
            List.length (particles (fst (start c0 innerWidth innerHeight random)))
            = NUM_PARTICLES).
  { unfold start, animate; cbv zeta; cbn [fst].
    rewrite Hupd; apply createParticles_length. }
  conjs.
  - reflexivity.
  - intro s; apply createParticles_length.
  - exact Hstart.
  - rewrite run_length; exact Hstart.
  - exact Hupd.
  - intro s; unfold animate; cbn [fst]; apply Hupd.
Qed.

(** C7. Immutability frame: along any sequence of frame and resize
    callbacks the array keeps, index by index, the velocity, radius,
    opacity and colour of every particle.  [updateParticle] rewrites only
    [x] and [y] of the object it is given; [updateParticles] keeps the
    canvas and the number of particles; [resizeCanvas] keeps the array. *)
Theorem creation_fields_immutable {F : Type} `{JsNumber F}
    (s : State F) (cbs : list (Callback F)) :
  map fixedPart (particles (fst (run s cbs))) = map fixedPart (particles s) /\
  (forall c p,
     updateParticle c p =
     set_y (set_x p (x (updateParticle c p))) (y (updateParticle c p))) /\
  map fixedPart (particles (updateParticles s)) = map fixedPart (particles s) /\
  List.length (particles (updateParticles s)) = List.length (particles s) /\
  canvas (updateParticles s) = canvas s /\
  map fixedPart (particles (fst (animate s))) = map fixedPart (particles s) /\
  (forall w h, particles (resizeCanvas w h s) = particles s).
Proof.
  conjs.
  - apply run_fixedPart.
  - intros c p; rewrite (updateParticle_eq c p) at 1.
    now rewrite updateParticle_x, updateParticle_y.
  - apply updateParticles_fixedPart.
  - unfold updateParticles; cbn [particles]; apply length_map.
  - reflexivity.
  - unfold animate; cbn [fst]; apply updateParticles_fixedPart.
  - reflexivity.
Qed.

(** C8. Resize frame and idempotence: [resizeCanvas] stores the window's
    size as the canvas's and leaves the array of particles as it is, draws
    nothing and requests no frame; with the size the canvas already has it
    leaves the whole state, every position and velocity included, as it
    is. *)
Theorem resize_frame {F : Type} `{JsNumber F} (w h : F) (s : State F) :
  particles (resizeCanvas w h s) = particles s /\
  width (canvas (resizeCanvas w h s)) = w /\
  height (canvas (resizeCanvas w h s)) = h /\
  step s (Resize w h) = (resizeCanvas w h s, []) /\
  resizeCanvas (width (canvas s)) (height (canvas s)) s = s.
Proof.
  conjs; try reflexivity.
  destruct s as [[w0 h0] ps]; reflexivity.
Qed.

(** C4 as stated fails. With three particles at rest, two of them 30
    apart, the frame fills the first circle with its effect number 4 and
    strokes the only link with effect number 18, after all three circles:
    a fill of a circle comes before the stroke of a link. *)
Lemma links_first_fails :
  nth_error (snd (animate (F := float) sampleState)) 4 = Some Fill /\
  nth_error (snd (animate (F := float) sampleState)) 18 = Some Stroke /\
  ~ linksBeforeCircles (snd (animate (F := float) sampleState)).
Proof.
  conjs.
  - vm_compute; reflexivity.
  - vm_compute; reflexivity.
  - intro Hlinks.
    apply (Hlinks (firstn 18 (snd (animate (F := float) sampleState)))
                  (skipn 19 (snd (animate (F := float) sampleState)))).
    + vm_compute; reflexivity.
    + vm_compute; tauto.
Qed.

(** C4 as amended. Frame ordering: a call of [animate] first updates the
    positions, then, on the updated state, clears the canvas, draws the
    circle of every particle, then the links of the pair loop, and last
    requests one animation frame.  No stroke of a link comes before a fill
    of a circle, and the request is the only one and the last effect. *)
Theorem frame_order_circles_then_links {F : Type} `{JsNumber F} (s : State F) :
  let s' := updateParticles s in
  animate s =
    (s',
     [ClearRect (num_of_Z 0) (num_of_Z 0) (width (canvas s')) (height (canvas s'))]
     ++ flat_map drawCircle (particles s')
     ++ linkLoop (particles s')
     ++ [RequestAnimationFrame]) /\
  ~ In Stroke (flat_map drawCircle (particles s')) /\
  ~ In Fill (linkLoop (particles s')) /\
  circlesBeforeLinks (snd (animate s)) /\
  List.length (filter isRequest (snd (animate s))) = 1%nat /\
  last (snd (animate s)) Stroke = RequestAnimationFrame.
Proof.
  cbv zeta; conjs.
  - unfold animate, drawParticles; cbv zeta; simpl.
    now rewrite <- app_assoc.
  - apply drawCircle_no_stroke.
  - apply linkLoop_no_fill.
  - unfold animate; cbn [snd]; apply drawParticles_circlesBeforeLinks.
  - unfold animate, drawParticles; cbn [snd].
    cbn [app filter isRequest].
    now rewrite !filter_app, drawCircle_no_request, linkLoop_no_request.
  - unfold animate; cbn [snd]; apply last_last.
Qed.

(** * The engine over the real numbers *)

Section RealArithmetic.

Local Open Scope R_scope.

Lemma Rltb_true (a b : R) : a < b -> Rltb a b = true.
Proof. intro Hab; unfold Rltb; destruct (Rlt_dec a b); [reflexivity | contradiction]. Qed.

Lemma Rltb_false (a b : R) : b <= a -> Rltb a b = false.
Proof. intro Hab; unfold Rltb; destruct (Rlt_dec a b); [lra | reflexivity]. Qed.

Lemma Rltb_true_iff (a b : R) : Rltb a b = true <-> a < b.
Proof.
  unfold Rltb; destruct (Rlt_dec a b); split; intro Hab;
    try reflexivity; try assumption; try discriminate; contradiction.
Qed.

(** The three cases of the two wraparound tests on one axis. *)
Lemma wrapAxis_cases (d v : R) :
  (v < 0 /\ wrapAxis d v = d) \/
  (0 <= v /\ d < v /\ wrapAxis d v = 0) \/
  (0 <= v <= d /\ wrapAxis d v = v).
Proof.
  unfold wrapAxis; cbn [num_ltb num_of_Z real]; unfold Rltb.
  destruct (Rlt_dec v 0) as [Hv|Hv].
  - left; split; [assumption|].
    destruct (Rlt_dec d d); [lra | reflexivity].
  - right; destruct (Rlt_dec d v) as [Hd|Hd].
    + left; repeat split; [lra | assumption].
    + right; repeat split; lra.
Qed.

Lemma wrapAxis_wrapRule_real (d v : R) : wrapAxis d v = wrapRule d v.
Proof.
  unfold wrapAxis, wrapRule; cbn [num_ltb num_of_Z real]; unfold Rltb.
  destruct (Rlt_dec v 0); [|reflexivity].
  destruct (Rlt_dec d d); [lra | reflexivity].
Qed.

Lemma wrapAxis_closed (d v : R) : 0 <= d -> 0 <= wrapAxis d v <= d.
Proof.
  intro Hd; destruct (wrapAxis_cases d v) as [(? & ->)|[(? & ? & ->)|(? & ->)]]; lra.
Qed.

Lemma updateParticle_closed (c : Canvas R) (p : Particle R) :
  0 <= width c -> 0 <= height c -> inClosedBox c (updateParticle c p).
Proof.
  intros Hw Hh; unfold inClosedBox.
  rewrite updateParticle_x, updateParticle_y.
  split; now apply wrapAxis_closed.
Qed.

Lemma distance_nonneg (a b : Particle R) : 0 <= distance a b.
Proof. unfold distance; cbv zeta; cbn [num_sqrt real]; apply sqrt_pos. Qed.

Lemma distance_sym (a b : Particle R) : distance a b = distance b a.
Proof.
  unfold distance; cbv zeta; cbn [num_sqrt num_add num_mul num_sub real].
  f_equal; ring.
Qed.

End RealArithmetic.

(** Decimal literals over the reals as quotients of integer constants. *)
Ltac real_literals :=
  cbn [num_add num_sub num_mul num_div num_ltb num_of_Z num_dec real
       x y vx vy width height canvas
       sampleCanvas leftEdgeParticle rightEdgeParticle cornerParticle restingAt
       edgeState sampleState] in *;
  unfold R_dec in *;
  repeat match goal with
         | |- context [(10 ^ Z.of_nat ?n)%Z] =>
             let v := eval compute in (10 ^ Z.of_nat n)%Z in
             change (10 ^ Z.of_nat n)%Z with v
         | H : context [(10 ^ Z.of_nat ?n)%Z] |- _ =>
             let v := eval compute in (10 ^ Z.of_nat n)%Z in
             change (10 ^ Z.of_nat n)%Z with v in H
         end.

(** * The wraparound properties *)

Section Wraparound.

Local Open Scope R_scope.











End Wraparound.

(** * The link properties *)

Section StrokeAlphas.

Context {F : Type} `{JsNumber F}.
Local Open Scope string_scope.
Local Open Scope list_scope.
Local Open Scope js_scope.

Lemma strokeAlphas_app (t1 t2 : list (Effect F)) :
  strokeAlphas (t1 ++ t2) = strokeAlphas t1 ++ strokeAlphas t2.
Proof. apply flat_map_app. Qed.

Lemma strokeAlphas_flat_map (A : Type) (f : A -> list (Effect F)) (l : list A) :
  strokeAlphas (flat_map f l) = flat_map (fun a => strokeAlphas (f a)) l.
Proof.
  induction l as [|a l IH]; simpl; [reflexivity|].
  now rewrite strokeAlphas_app, IH.
Qed.

Lemma strokeAlphas_circles (ps : list (Particle F)) :
  strokeAlphas (flat_map drawCircle ps) = [].
Proof.
  rewrite strokeAlphas_flat_map.
  induction ps as [|p ps IH]; simpl; [reflexivity | exact IH].
Qed.

Lemma strokeAlphas_drawLink (a b : Particle F) :
  strokeAlphas (drawLink a b) =
  if distance a b <? MAX_DISTANCE
  then [(num_of_Z 1 - distance a b / MAX_DISTANCE) * num_dec 25 2]
  else [].
Proof.
  destruct (distance a b <? MAX_DISTANCE) eqn:E.
  - now rewrite drawLink_near.
  - now rewrite drawLink_far.
Qed.

Lemma strokeAlphas_drawParticles (s : State F) :
  strokeAlphas (drawParticles s) =
  flat_map (fun ij => strokeAlphas (linkAt (particles s) ij))
           (linkPairs (List.length (particles s))).
Proof.
  unfold drawParticles.
  change (strokeAlphas (?e :: ?t)) with (strokeAlphas [e] ++ strokeAlphas t).
  rewrite strokeAlphas_app, strokeAlphas_circles, linkLoop_linkPairs.
  now rewrite strokeAlphas_flat_map.
Qed.

End StrokeAlphas.

Section LinksOverReals.

Local Open Scope R_scope.

Lemma near_real (a b : Particle R) :
  num_ltb (distance a b) MAX_DISTANCE = true <-> distance a b < 140.
Proof. unfold MAX_DISTANCE; cbn [num_ltb num_of_Z real]; apply Rltb_true_iff. Qed.

Lemma far_real (a b : Particle R) :
  num_ltb (distance a b) MAX_DISTANCE = false <-> ~ distance a b < 140.
Proof.
  rewrite <- near_real; destruct (num_ltb (distance a b) MAX_DISTANCE);
    split; intro Hn; try reflexivity; try discriminate; congruence.
Qed.

Lemma alpha_real (d : R) :
  num_mul (num_sub (num_of_Z 1) (num_div d MAX_DISTANCE)) (num_dec 25 2)
  = (1 - d / 140) * 0.25.
Proof. unfold MAX_DISTANCE; real_literals; lra. Qed.

Lemma strokeAlphas_drawLink_real (a b : Particle R) :
  distance a b < 140 ->
  strokeAlphas (drawLink a b) = [(1 - distance a b / 140) * 0.25].
Proof.
  intro Hd; rewrite strokeAlphas_drawLink.
  apply near_real in Hd; rewrite Hd; now rewrite alpha_real.
Qed.

Lemma drawsSegment_iff (a b : Particle R) :
  drawsSegment a b (drawLink a b) <-> distance a b < 140.
Proof.
  split.
  - intros (pre & post & Heq).
    destruct (num_ltb (distance a b) MAX_DISTANCE) eqn:E.
    + now apply near_real.
    + rewrite drawLink_far in Heq by assumption.
      destruct pre; discriminate Heq.
  - intro Hd; apply near_real in Hd.
    rewrite drawLink_near by assumption.
    eexists [_; _; _], []; reflexivity.
Qed.

End LinksOverReals.

Section LinkProperties.

Local Open Scope R_scope.

Lemma sample_distance :
  distance (F := R) (restingAt 100 100) (restingAt 130 100) = 30.
Proof.
  unfold distance; cbv zeta; cbn [num_sqrt real]; real_literals.
  replace ((100 - 130) * (100 - 130) + (100 - 100) * (100 - 100))
    with (30 * 30) by lra.
  apply sqrt_square; lra.
Qed.

(** The pair loop on the three particles of [sampleState], in binary64:
    three pairs, and only the two particles 30 apart are linked. *)
Lemma sample_links :
  linkPairs 3 = [(0, 1); (0, 2); (1, 2)]%nat /\
  map (fun ij => List.length (filter isStroke
                   (linkAt (particles (F := float) sampleState) ij)))
      (linkPairs 3) = [1; 0; 0]%nat.
Proof. split; vm_compute; reflexivity. Qed.



(** The link of the two particles 30 apart in [sampleState]. *)
Lemma sample_alpha :
  In ((1 - 30 / 140) * 0.25) (strokeAlphas (drawParticles (F := R) sampleState)).
Proof.
  rewrite strokeAlphas_drawParticles.
  apply in_flat_map; exists (0%nat, 1%nat); split.
  - apply in_linkPairs; simpl; lia.
  - unfold linkAt; cbn [fst snd nth_error particles sampleState].
    rewrite strokeAlphas_drawLink_real; rewrite sample_distance;
      [left; reflexivity | lra].
Qed.


End LinkProperties.

(** * The wraparound in binary64 *)

Section Binary64.

Local Open Scope float_scope.

Lemma SFcompare_antisym (f1 f2 : spec_float) :
  SFcompare f2 f1 = option_map CompOpp (SFcompare f1 f2).
Proof.
  destruct f1 as [s1|s1| |s1 m1 e1], f2 as [s2|s2| |s2 m2 e2]; simpl;
    try destruct s1; try destruct s2; try reflexivity.
  all: rewrite (Z.compare_antisym e1 e2); destruct (e1 ?= e2)%Z; simpl;
    try reflexivity.
  all: change (Pos.compare_cont Eq m2 m1) with (Pos.compare m2 m1);
    change (Pos.compare_cont Eq m1 m2) with (Pos.compare m1 m2);
    rewrite (Pos.compare_antisym m1 m2); destruct (m1 ?= m2)%positive;
    reflexivity.
Qed.

Lemma SFcompare_diag (f : spec_float) :
  SFcompare f f = match f with S754_nan => None | _ => Some Eq end.
Proof.
  destruct f as [s|s| |s m e]; simpl; try destruct s; try reflexivity.
  all: rewrite Z.compare_refl;
    change (Pos.compare_cont Eq m m) with (Pos.compare m m);
    now rewrite Pos.compare_refl.
Qed.

Lemma SFcompare_numbers (f1 f2 : spec_float) :
  SFcompare f1 f1 = Some Eq -> SFcompare f2 f2 = Some Eq ->
  exists c, SFcompare f1 f2 = Some c.
Proof.
  rewrite !SFcompare_diag; intros H1 H2.
  destruct f1, f2; try discriminate; simpl; eexists; reflexivity.
Qed.

Lemma isNumber_spec (a : float) :
  isNumber a = true <-> SFcompare (Prim2SF a) (Prim2SF a) = Some Eq.
Proof.
  unfold isNumber; rewrite FloatAxioms.eqb_spec; unfold SFeqb.
  rewrite SFcompare_diag; destruct (Prim2SF a); split; intro Hn;
    try reflexivity; discriminate.
Qed.

Lemma ltb_irrefl (a : float) : (a <? a) = false.
Proof.
  rewrite FloatAxioms.ltb_spec; unfold SFltb; rewrite SFcompare_diag.
  now destruct (Prim2SF a).
Qed.

Lemma leb_refl (a : float) : isNumber a = true -> (a <=? a) = true.
Proof.
  intro Ha; apply isNumber_spec in Ha.
  rewrite FloatAxioms.leb_spec; unfold SFleb; now rewrite Ha.
Qed.

Lemma leb_isNumber (a b : float) :
  (a <=? b) = true -> isNumber a = true /\ isNumber b = true.
Proof.
  rewrite FloatAxioms.leb_spec; unfold SFleb; intro Hle.
  rewrite !isNumber_spec, !SFcompare_diag.
  destruct (Prim2SF a), (Prim2SF b); simpl in Hle; try discriminate;
    split; reflexivity.
Qed.

Lemma not_ltb_leb (a b : float) :
  isNumber a = true -> isNumber b = true ->
  (a <? b) = false -> (b <=? a) = true.
Proof.
  intros Ha Hb; apply isNumber_spec in Ha; apply isNumber_spec in Hb.
  destruct (SFcompare_numbers _ _ Ha Hb) as (cmp & Hc).
  rewrite FloatAxioms.ltb_spec, FloatAxioms.leb_spec; unfold SFltb, SFleb.
  rewrite (SFcompare_antisym (Prim2SF a) (Prim2SF b)), Hc.
  now destruct cmp.
Qed.

Lemma wrapAxis_wrapRule (d v : float) : wrapAxis d v = wrapRule d v.
Proof.
  unfold wrapAxis, wrapRule; cbn [num_ltb num_of_Z float64 float_of_Z].
  destruct (v <? zero); [|reflexivity].
  now rewrite ltb_irrefl.
Qed.

Lemma wrapAxis_closed_binary64 (d v : float) :
  (zero <=? d) = true -> isNumber v = true ->
  (zero <=? wrapAxis d v) = true /\ (wrapAxis d v <=? d) = true.
Proof.
  intros Hd Hv; destruct (leb_isNumber _ _ Hd) as [H0 Hnd].
  rewrite wrapAxis_wrapRule; unfold wrapRule.
  cbn [num_ltb num_of_Z float64 float_of_Z].
  destruct (v <? zero) eqn:E1; [|destruct (d <? v) eqn:E2].
  - split; [assumption | now apply leb_refl].
  - split; [now apply leb_refl | assumption].
  - split; now apply not_ltb_leb.
Qed.




(** X3. Where the two readings part. The link properties are proved for the engine
    over the reals; binary64 rounds the same expression.  For two particles
    a single step of [x] apart the distance is positive, [1 - dist / 140]
    rounds to [1], and the link is stroked with alpha [0.25] exactly. *)
Lemma binary64_alpha_rounding :
  (zero <? distance (fst stepApart) (snd stepApart)) = true /\
  strokeAlphas (drawLink (fst stepApart) (snd stepApart)) = [num_dec 25 2].
Proof. split; vm_compute; reflexivity. Qed.

End Binary64.

(** * Further properties of the engine *)

Section Creation.

Context {F : Type} `{JsNumber F}.

Lemma createLoop_map (random : nat -> F) (c : Canvas F) (n i : nat)
    (ps : list (Particle F)) :
  createLoop random c n i ps =
  ps ++ map (fun j => newParticle random c (7 * j)) (seq i n).
Proof.
  revert i ps; induction n as [|n IH]; intros i ps; simpl.
  - now rewrite app_nil_r.
  - now rewrite IH, <- app_assoc.
Qed.

Lemma createParticles_map (random : nat -> F) (s : State F) :
  particles (createParticles random s) =
  map (fun j => newParticle random (canvas s) (7 * j)) (seq 0 NUM_PARTICLES).
Proof. unfold createParticles; cbn [particles]; apply createLoop_map. Qed.

Lemma run_app (s : State F) (l1 l2 : list (Callback F)) :
  run s (l1 ++ l2) =
  (fst (run (fst (run s l1)) l2),
   snd (run s l1) ++ snd (run (fst (run s l1)) l2)).
Proof.
  revert s; induction l1 as [|cb l1 IH]; intro s; simpl.
  - now destruct (run s l2).
  - destruct (step s cb) as [s1 t1]; rewrite IH.
    destruct (run s1 l1) as [s2 t2]; simpl.
    now rewrite app_assoc.
Qed.

Lemma animate_requests (s : State F) :
  List.length (filter isRequest (snd (animate s))) = 1%nat.
Proof.
  unfold animate, drawParticles; cbn [snd app filter isRequest].
  now rewrite !filter_app, drawCircle_no_request, linkLoop_no_request.
Qed.

Lemma length_filter_flat_map_le (A B : Type) (keep : B -> bool)
    (f : A -> list B) (l : list A) :
  (forall a, List.length (filter keep (f a)) <= 1)%nat ->
  (List.length (filter keep (flat_map f l)) <= List.length l)%nat.
Proof.
  intro Hf; induction l as [|a l IH]; simpl; [lia|].
  rewrite filter_app, length_app; specialize (Hf a); lia.
Qed.

Lemma drawCircle_fills (ps : list (Particle F)) :
  List.length (filter isFill (flat_map drawCircle ps)) = List.length ps.
Proof.
  induction ps as [|p ps IH]; [reflexivity|].
  cbn [flat_map]; unfold drawCircle at 1; cbv zeta.
  cbn [app filter isFill List.length]; now rewrite IH.
Qed.

Lemma rows_sum (m k : nat) :
  (k <= m)%nat ->
  (2 * list_sum (map (fun i => m - S i) (seq 0 k)) + k * (k + 1) = 2 * k * m)%nat.
Proof.
  induction k as [|k IH]; intro Hk; [reflexivity|].
  rewrite seq_S, map_app, list_sum_app; simpl map; simpl list_sum.
  specialize (IH ltac:(lia)); nia.
Qed.

Lemma length_linkPairs (n : nat) :
  (2 * List.length (linkPairs n) = n * (n - 1))%nat.
Proof.
  unfold linkPairs; rewrite length_flat_map.
  rewrite (map_ext _ (fun i => n - S i)%nat)
    by (intro i; now rewrite length_map, length_seq).
  pose proof (rows_sum n n (le_n n)); nia.
Qed.

End Creation.

Section EngineRuns.

Local Open Scope R_scope.

Lemma newParticle_ranges (random : nat -> R) (c : Canvas R) (k : nat) :
  (forall j, 0 <= random j < 1) ->
  inCreationRanges (newParticle random c k).
Proof.
  intro Hr; unfold inCreationRanges, rangesOf, fixedPart, newParticle.
  cbn [vx vy radius opacity color].
  pose proof (Hr (k + 2)%nat); pose proof (Hr (k + 3)%nat);
    pose proof (Hr (k + 4)%nat); pose proof (Hr (k + 5)%nat).
  split.
  - real_literals; lra.
  - destruct (num_ltb _ _); [left | right]; reflexivity.
Qed.

Lemma newParticle_box (random : nat -> R) (c : Canvas R) (k : nat) :
  (forall j, 0 <= random j < 1) -> 0 < width c -> 0 < height c ->
  inHalfOpenBox c (newParticle random c k).
Proof.
  intros Hr Hw Hh; unfold inHalfOpenBox, newParticle; cbn [x y num_mul real].
  pose proof (Hr k); pose proof (Hr (k + 1)%nat); nra.
Qed.

Lemma Forall_ranges_fixedPart (l1 l2 : list (Particle R)) :
  map fixedPart l1 = map fixedPart l2 ->
  Forall inCreationRanges l1 -> Forall inCreationRanges l2.
Proof.
  intros Heq Hl1; unfold inCreationRanges in *.
  apply Forall_map; rewrite <- Heq; now apply Forall_map.
Qed.

Lemma run_nonneg_canvas (cbs : list (Callback R)) (s : State R) :
  0 <= width (canvas s) -> 0 <= height (canvas s) ->
  Forall nonnegResize cbs ->
  0 <= width (canvas (fst (run s cbs))) /\
  0 <= height (canvas (fst (run s cbs))).
Proof.
  revert s; induction cbs as [|cb rest IH]; intros s Hw Hh Hcbs; simpl.
  - now split.
  - inversion Hcbs as [|? ? Hcb Hrest]; subst.
    assert (Hs : 0 <= width (canvas (fst (step s cb))) /\
                 0 <= height (canvas (fst (step s cb)))).
    { destruct cb as [|w h]; simpl in *; [now split | exact Hcb]. }
    destruct (step s cb) as [s1 t1]; simpl in Hs.
    specialize (IH s1 (proj1 Hs) (proj2 Hs) Hrest).
    now destruct (run s1 rest).
Qed.





(** X6. A frame restores the box: on a canvas of non-negative size, after
    any sequence of frame callbacks and resizes to non-negative sizes that
    ends with a frame, every particle lies in the closed box of the canvas
    as it is then, also when an earlier resize had left particles outside
    it. *)
Theorem frame_restores_closed_box (s : State R) (cbs : list (Callback R)) :
  0 <= width (canvas s) -> 0 <= height (canvas s) ->
  Forall nonnegResize cbs ->
  Forall (inClosedBox (canvas (fst (run s (cbs ++ [Frame])))))
         (particles (fst (run s (cbs ++ [Frame])))).
Proof.
  intros Hw Hh Hcbs; rewrite run_app; cbn [fst].
  destruct (run_nonneg_canvas cbs s Hw Hh Hcbs) as [Hw1 Hh1].
  set (s1 := fst (run s cbs)) in *.
  simpl; unfold updateParticles; cbn [particles canvas].
  apply Forall_forall; intros q Hq.
  apply in_map_iff in Hq as (p & <- & _).
  now apply updateParticle_closed.
Qed.

(** The edge particles, a resize to 400 x 300 and a frame. *)
Lemma frame_restores_closed_box_witness :
  Forall (inClosedBox (canvas (fst (run edgeState ([Resize 400 300] ++ [Frame])))))
         (particles (fst (run edgeState ([Resize 400 300] ++ [Frame])))).
Proof.
  apply (frame_restores_closed_box edgeState [Resize 400 300]).
  - real_literals; lra.
  - real_literals; lra.
  - constructor; [simpl; lra | constructor].
Defined.

End EngineRuns.

Section EngineCounts.

Context {F : Type} `{JsNumber F}.

(** X7. One request per frame: in the effects of any sequence of
    callbacks the number of [requestAnimationFrame] calls equals the number
    of frame callbacks; a resize requests none, so the loop neither stops
    nor multiplies. *)
Theorem one_request_per_frame (s : State F) (cbs : list (Callback F)) :
  List.length (filter isRequest (snd (run s cbs)))
  = List.length (filter isFrame cbs).
Proof.
  revert s; induction cbs as [|cb rest IH]; intro s; [reflexivity|].
  destruct cb as [|w h]; cbn [run step isFrame filter].
  - pose proof (animate_requests s) as Hone.
    destruct (animate s) as [s1 t1]; specialize (IH s1).
    destruct (run s1 rest) as [s2 t2]; cbn [snd List.length] in *.
    now rewrite filter_app, length_app, Hone, IH.
  - specialize (IH (resizeCanvas w h s)).
    destruct (run (resizeCanvas w h s) rest) as [s2 t2]; cbn [snd app] in *.
    exact IH.
Qed.

(** X5. Work of a frame: for [n] particles [drawParticles] clears the
    canvas once, as its first effect, fills exactly [n] circles, runs the
    body of the pair loop [n (n - 1) / 2] times, 3160 times for the 80
    particles of the page, and strokes at most that many links. *)
Theorem frame_work (s : State F) :
  hd_error (drawParticles s) =
    Some (ClearRect (num_of_Z 0) (num_of_Z 0)
                    (width (canvas s)) (height (canvas s))) /\
  List.length (filter isClearRect (drawParticles s)) = 1%nat /\
  List.length (filter isFill (drawParticles s)) = List.length (particles s) /\
  (2 * List.length (linkPairs (List.length (particles s)))
   = List.length (particles s) * (List.length (particles s) - 1))%nat /\
  List.length (linkPairs NUM_PARTICLES) = 3160%nat /\
  (List.length (filter isStroke (drawParticles s))
   <= List.length (linkPairs (List.length (particles s))))%nat.
Proof.
  assert (HlinkClear : filter isClearRect (linkLoop (particles s)) = []).
  { rewrite linkLoop_linkPairs; apply filter_flat_map_nil; intros [i j].
    unfold linkAt; cbn [fst snd].
    destruct (nth_error (particles s) i) as [a|],
             (nth_error (particles s) j) as [b|]; try reflexivity.
    unfold drawLink; cbv zeta; now destruct (num_ltb (distance a b) MAX_DISTANCE). }
  assert (HlinkFill : filter isFill (linkLoop (particles s)) = []).
  { rewrite linkLoop_linkPairs; apply filter_flat_map_nil; intros [i j].
    unfold linkAt; cbn [fst snd].
    destruct (nth_error (particles s) i) as [a|],
             (nth_error (particles s) j) as [b|]; try reflexivity.
    unfold drawLink; cbv zeta; now destruct (num_ltb (distance a b) MAX_DISTANCE). }
  assert (HcircClear : filter isClearRect (flat_map drawCircle (particles s)) = []).
  { apply filter_flat_map_nil; intro p; reflexivity. }
  assert (HcircStroke : filter isStroke (flat_map drawCircle (particles s)) = []).
  { apply filter_flat_map_nil; intro p; reflexivity. }
  pose proof (drawCircle_fills (particles s)) as HcircFill.
  unfold drawParticles; cbn [hd_error filter isClearRect isFill isStroke].
  rewrite !filter_app, HlinkClear, HlinkFill, HcircClear, HcircStroke.
  rewrite length_app, HcircFill; cbn [app List.length].
  conjs; try reflexivity; try lia.
  - apply length_linkPairs.
  - rewrite linkLoop_linkPairs; apply length_filter_flat_map_le; intros [i j].
    unfold linkAt; cbn [fst snd].
    destruct (nth_error (particles s) i) as [a|],
             (nth_error (particles s) j) as [b|]; simpl; try lia.
    rewrite drawLink_strokes; destruct (num_ltb _ _); lia.
Qed.

End EngineCounts.

(** * Properties of the page *)

Module PageProperties.

Import Page.

(** ** Strings and class lists *)

Lemma str_eqb_eq (a b : jsstring) : str_eqb a b = true <-> a = b.
Proof.
  revert b; induction a as [|c a IH]; intros [|d b]; simpl;
    try (split; [discriminate | discriminate]); [tauto|].
  rewrite andb_true_iff, N.eqb_eq, IH; split.
  - intros [-> ->]; reflexivity.
  - intro Heq; inversion Heq; now split.
Qed.

Lemma str_eqb_refl (a : jsstring) : str_eqb a a = true.
Proof. now apply str_eqb_eq. Qed.

Lemma contains_In (cl : classList) (t : jsstring) :
  contains cl t = true <-> In t cl.
Proof.
  unfold contains; rewrite existsb_exists; split.
  - intros (u & Hu & Heq); apply str_eqb_eq in Heq; now subst.
  - intro Hin; exists t; split; [assumption | apply str_eqb_refl].
Qed.

Lemma contains_add (cl : classList) (t : jsstring) :
  contains (add cl t) t = true.
Proof.
  unfold add; destruct (contains cl t) eqn:E; [assumption|].
  apply contains_In, in_or_app; right; now left.
Qed.

Lemma contains_remove (cl : classList) (t : jsstring) :
  contains (remove cl t) t = false.
Proof.
  destruct (contains (remove cl t) t) eqn:E; [|reflexivity].
  apply contains_In in E; unfold remove in E.
  apply filter_In in E as [_ E]; now rewrite str_eqb_refl in E.
Qed.

Lemma contains_toggle (cl : classList) (t : jsstring) :
  contains (toggle cl t) t = negb (contains cl t).
Proof.
  unfold toggle; destruct (contains cl t) eqn:E; simpl.
  - apply contains_remove.
  - apply contains_add.
Qed.

(** ** split and join *)

Lemma splitFrom_plain (sep : N) (l cur : jsstring) :
  ~ In sep l -> splitFrom sep cur l = [rev cur ++ l].
Proof.
  revert cur; induction l as [|c l IH]; intros cur Hno; simpl.
  - now rewrite app_nil_r.
  - destruct (N.eqb_spec c sep) as [->|Hne].
    + exfalso; apply Hno; now left.
    + rewrite IH by (intro Hin; apply Hno; now right).
      simpl; now rewrite <- app_assoc.
Qed.

Lemma splitFrom_piece (sep : N) (l cur rest : jsstring) :
  ~ In sep l ->
  splitFrom sep cur (l ++ sep :: rest) = (rev cur ++ l) :: splitFrom sep [] rest.
Proof.
  revert cur; induction l as [|c l IH]; intros cur Hno; simpl.
  - now rewrite N.eqb_refl, app_nil_r.
  - destruct (N.eqb_spec c sep) as [->|Hne].
    + exfalso; apply Hno; now left.
    + rewrite IH by (intro Hin; apply Hno; now right).
      simpl; now rewrite <- app_assoc.
Qed.

Lemma split_join (sep : N) (pieces : list jsstring) :
  pieces <> [] -> Forall (fun p => ~ In sep p) pieces ->
  split sep (join [sep] pieces) = pieces.
Proof.
  unfold split; induction pieces as [|p rest IH]; intros Hne Hall;
    [contradiction|].
  inversion Hall as [|? ? Hp Hrest]; subst.
  destruct rest as [|q rest].
  - simpl; now rewrite splitFrom_plain.
  - change (join [sep] (p :: q :: rest)) with (p ++ sep :: join [sep] (q :: rest)).
    rewrite splitFrom_piece by assumption; simpl rev; simpl app.
    now rewrite IH.
Qed.

Lemma splitFrom_Forall (P : N -> Prop) (sep : N) (s cur : jsstring) :
  Forall P cur -> Forall P s -> Forall (Forall P) (splitFrom sep cur s).
Proof.
  revert cur; induction s as [|c s IH]; intros cur Hcur Hs; simpl.
  - constructor; [now apply Forall_rev | constructor].
  - inversion Hs; subst; destruct (N.eqb c sep).
    + constructor; [now apply Forall_rev | now apply IH].
    + apply IH; [now constructor | assumption].
Qed.

Lemma splitFrom_covers (sep c : N) (s cur : jsstring) :
  In c cur \/ In c s -> c <> sep ->
  exists piece, In piece (splitFrom sep cur s) /\ In c piece.
Proof.
  revert cur; induction s as [|d s IH]; intros cur Hin Hne; simpl.
  - destruct Hin as [Hin|[]]; exists (rev cur); split; [now left|].
    now apply in_rev in Hin.
  - destruct (N.eqb_spec d sep) as [->|Hd].
    + destruct Hin as [Hin|[Heq|Hin]].
      * exists (rev cur); split; [now left | now apply in_rev in Hin].
      * congruence.
      * destruct (IH [] (or_intror Hin) Hne) as (piece & Hp & Hc).
        exists piece; split; [now right | assumption].
    + apply IH; [|assumption].
      destruct Hin as [Hin|[Heq|Hin]];
        [left; now right | left; now left | now right].
Qed.

(** ** trim *)

Lemma trimStart_blank (s : jsstring) :
  Forall (fun c => isWhiteSpace c = true) s -> trimStart s = [].
Proof.
  induction 1 as [|c s Hc _ IH]; simpl; [reflexivity | now rewrite Hc].
Qed.

Lemma trim_blank (s : jsstring) :
  Forall (fun c => isWhiteSpace c = true) s -> trim s = [].
Proof. intro Hs; unfold trim; now rewrite trimStart_blank. Qed.

Lemma trimStart_keeps (c : N) (s : jsstring) :
  In c s -> isWhiteSpace c = false -> In c (trimStart s).
Proof.
  induction s as [|d s IH]; intros Hin Hc; simpl; [contradiction|].
  destruct (isWhiteSpace d) eqn:Ed; [|assumption].
  destruct Hin as [->|Hin]; [congruence | now apply IH].
Qed.

Lemma trim_keeps (c : N) (s : jsstring) :
  In c s -> isWhiteSpace c = false -> In c (trim s).
Proof.
  intros Hin Hc; unfold trim, trimEnd.
  apply in_rev; rewrite rev_involutive.
  apply trimStart_keeps; [|assumption].
  apply in_rev; rewrite rev_involutive.
  now apply trimStart_keeps.
Qed.

(** ** displayResult: the paragraphs *)

Lemma join_concat (pieces : list jsstring) : join [] pieces = List.concat pieces.
Proof.
  induction pieces as [|p [|q rest] IH]; simpl in *;
    [reflexivity | now rewrite app_nil_r | now rewrite IH].
Qed.

Lemma concat_nonempty (pieces : list jsstring) (p : jsstring) :
  In p pieces -> p <> [] -> List.concat pieces <> [].
Proof.
  induction pieces as [|q rest IH]; intros Hin Hp; [contradiction|].
  simpl; destruct Hin as [->|Hin].
  - destruct p; [contradiction | discriminate].
  - intro Hnil; apply app_eq_nil in Hnil as [_ Hrest].
    now apply (IH Hin Hp).
Qed.

Lemma isWhiteSpace_LF : isWhiteSpace LF = true.
Proof. reflexivity. Qed.

Lemma tidy_lines_kept (lines : list jsstring) :
  Forall (fun l => l <> [] /\ trim l = l /\ ~ In LF l) lines ->
  map (fun p => lit "<p>" ++ trim p ++ lit "</p>")
      (filter (fun p => truthy (VString (trim p))) lines)
  = map (fun l => lit "<p>" ++ l ++ lit "</p>") lines.
Proof.
  induction 1 as [|l ls (Hne & Htrim & _) _ IH]; [reflexivity|].
  cbn [filter]; rewrite Htrim.
  destruct l as [|c l]; [contradiction|].
  cbn [truthy map]; rewrite Htrim; f_equal; exact IH.
Qed.

(** X9. Paragraphs verbatim: a summary made of lines that are non-empty,
    already trimmed and joined by line feeds is rendered as one
    [<p>...</p>] per line, in order, with the text of each line copied
    code unit for code unit into [innerHTML]: nothing is escaped. *)
Theorem summary_rendered_verbatim (lines : list jsstring) :
  Forall (fun l => l <> [] /\ trim l = l /\ ~ In LF l) lines ->
  formatSummary (join [LF] lines) =
  List.concat (map (fun l => lit "<p>" ++ l ++ lit "</p>") lines).
Proof.
  intro Hlines; destruct lines as [|l0 rest]; [reflexivity|].
  unfold formatSummary; rewrite join_concat; f_equal.
  rewrite <- (tidy_lines_kept _ Hlines); f_equal; f_equal.
  apply split_join; [discriminate|].
  eapply Forall_impl; [|exact Hlines]; now intros l (_ & _ & Hno).
Qed.

(** Two lines, the first with markup. *)
Lemma summary_rendered_verbatim_witness :
  formatSummary (join [LF] [lit "<b>Hi</b> all"; lit "second line"]) =
  lit "<p><b>Hi</b> all</p><p>second line</p>".
Proof.
  rewrite (summary_rendered_verbatim [lit "<b>Hi</b> all"; lit "second line"]).
  - reflexivity.
  - repeat constructor; try discriminate;
      intro Hin; vm_compute in Hin; intuition discriminate.
Defined.

(** X10. Blank summaries: [displayResult] writes an empty [innerHTML]
    exactly when every code unit of the summary is white space or a line
    terminator; any other code unit puts a paragraph on the page. *)
Theorem summary_blank_iff (text : jsstring) :
  formatSummary text = [] <->
  Forall (fun c => isWhiteSpace c = true) text.
Proof.
  unfold formatSummary; rewrite join_concat; split.
  - intro Hnil; apply Forall_forall; intros c Hc.
    destruct (isWhiteSpace c) eqn:Ec; [reflexivity | exfalso].
    assert (Hne : c <> LF) by (intros ->; discriminate Ec).
    destruct (splitFrom_covers LF c text [] (or_intror Hc) Hne)
      as (piece & Hpiece & Hin).
    pose proof (trim_keeps c piece Hin Ec) as Hkept.
    revert Hnil; apply (concat_nonempty _ (lit "<p>" ++ trim piece ++ lit "</p>"));
      [|discriminate].
    apply in_map_iff; exists piece; split; [reflexivity|].
    apply filter_In; split; [exact Hpiece|].
    simpl; destruct (trim piece); [contradiction | reflexivity].
  - intro Hblank.
    pose proof (splitFrom_Forall _ LF text [] (Forall_nil _) Hblank) as Hpieces.
    fold (split LF text) in Hpieces.
    induction Hpieces as [|piece rest Hp _ IH]; [reflexivity|].
    cbn [filter]; rewrite (trim_blank piece Hp); exact IH.
Qed.

(** ** The cards *)

Lemma lit_block_none : lit "block" <> lit "none".
Proof. discriminate. Qed.

Lemma getProp_some (data : Value) (k k' : Key) (v : Value) :
  getProp data k = Some v -> exists w, getProp data k' = Some w.
Proof. destruct data; simpl; try discriminate; intros _; eexists; reflexivity. Qed.

Lemma displayResult_panels (data : Value) (s : State) :
  panels (fst (displayResult data s)) =
  {| loadingSpinner := lit "none"; resultCard := lit "block";
     errorCard := lit "none"; placeholderCard := lit "none" |}.
Proof.
  unfold displayResult; cbv zeta.
  destruct (getProp data summary) as [[]|];
    destruct (getProp data messages_count);
    destruct (getProp data date_range); reflexivity.
Qed.

Lemma displayResult_inputs (data : Value) (s : State) :
  inputs (fst (displayResult data s)) = inputs s /\
  labels (fst (displayResult data s)) = labels s.
Proof.
  unfold displayResult; cbv zeta.
  destruct (getProp data summary) as [[]|];
    destruct (getProp data messages_count);
    destruct (getProp data date_range); split; reflexivity.
Qed.

Lemma displayResult_ok (data : Value) (text : jsstring) (s : State) :
  getProp data summary = Some (VString text) ->
  exists count range,
    getProp data messages_count = Some count /\
    getProp data date_range = Some range /\
    snd (displayResult data s) = false /\
    outputs (fst (displayResult data s)) =
      {| errorMessage := errorMessage (outputs s);
         summaryContent := formatSummary text;
         msgCount := orElse count
                       (if truthy (VString text) then VString (lit "~")
                        else VNumber PrimFloat.zero);
         dateRange := orElse range (VString (lit "All dates")) |}.
Proof.
  intro Hs.
  destruct (getProp_some data summary messages_count _ Hs) as (count & Hc).
  destruct (getProp_some data summary date_range _ Hs) as (range & Hr).
  exists count, range; unfold displayResult; cbv zeta.
  rewrite Hs, Hc, Hr; repeat split; reflexivity.
Qed.

Lemma displayResult_throws (data : Value) (s : State) :
  (forall text, getProp data summary <> Some (VString text)) ->
  snd (displayResult data s) = true /\
  outputs (fst (displayResult data s)) = outputs s.
Proof.
  intro Hno; unfold displayResult; cbv zeta.
  destruct (getProp data summary) as [[]|]; try (split; reflexivity).
  exfalso; now apply (Hno s0).
Qed.

Lemma summary_string_dec (data : Value) :
  (exists text, getProp data summary = Some (VString text)) \/
  (forall text, getProp data summary <> Some (VString text)).
Proof.
  destruct (getProp data summary) as [[]|];
    try (right; intros text Heq; discriminate Heq).
  left; eexists; reflexivity.
Qed.

Lemma settled_inputs (typeError : Key -> Value -> jsstring) (o : Outcome) (s : State) :
  inputs (summarizeSettled typeError o s) = inputs s /\
  labels (summarizeSettled typeError o s) = labels s.
Proof.
  destruct o as [m|[|] [data|m]]; simpl; try (split; reflexivity).
  - pose proof (displayResult_inputs data s) as Hin.
    destruct (displayResult data s) as [s' [|]]; simpl in *; exact Hin.
  - destruct (getProp data error); split; reflexivity.
Qed.

Lemma click_panels (s : State) :
  onePanel (panels (fst (summarizeClick s))).
Proof.
  unfold summarizeClick; destruct (files (inputs s)); split; reflexivity.
Qed.

Lemma settled_panels (typeError : Key -> Value -> jsstring) (o : Outcome) (s : State) :
  onePanel (panels (summarizeSettled typeError o s)) /\
  loadingSpinner (panels (summarizeSettled typeError o s)) = lit "none" /\
  placeholderCard (panels (summarizeSettled typeError o s)) = lit "none".
Proof.
  destruct o as [m|[|] [data|m]]; simpl;
    try (split; [split; reflexivity | split; reflexivity]).
  - pose proof (displayResult_panels data s) as Hp.
    destruct (displayResult data s) as [s' [|]]; simpl in *.
    + split; [split; reflexivity | split; reflexivity].
    + rewrite Hp; split; [split; reflexivity | split; reflexivity].
  - destruct (getProp data error);
      (split; [split; reflexivity | split; reflexivity]).
Qed.

Lemma handle_panels (timeValue : jsstring -> float)
    (typeError : Key -> Value -> jsstring) (s : State) (e : Event) :
  onePanel (panels s) -> onePanel (panels (handle timeValue typeError s e)).
Proof.
  intro Hone; destruct e; simpl; try exact Hone.
  - unfold fileChange; now destruct (files (inputs (set_files s fs))).
  - unfold drop, fileChange.
    now destruct (files (inputs (set_files (dragLeave s) fs))).
  - unfold startDateChange; cbv zeta.
    now destruct (_ && _).
  - unfold endDateChange; cbv zeta.
    now destruct (_ && _).
  - apply click_panels.
  - unfold keydown; destruct (_ && _); [|exact Hone].
    destruct (files (inputs s)) eqn:Ef; [exact Hone | apply click_panels].
  - apply settled_panels.
Qed.

Lemma handleAll_panels (timeValue : jsstring -> float)
    (typeError : Key -> Value -> jsstring) (es : list Event) (s : State) :
  onePanel (panels s) -> onePanel (panels (handleAll timeValue typeError s es)).
Proof.
  revert s; induction es as [|e es IH]; intros s Hone; [exact Hone|].
  apply IH, handle_panels, Hone.
Qed.

(** X11. One card at a time: from any state, once the summarize button was
    clicked or a request has ended, exactly one of the spinner and the
    result, error and placeholder cards has [display] ['block'] and the
    other three ['none'], and this stays so after any further events; the
    end of a request always hides the spinner and the placeholder. *)
Theorem one_card_shown (timeValue : jsstring -> float)
    (typeError : Key -> Value -> jsstring) (s : State) (es : list Event) :
  onePanel (panels (handleAll timeValue typeError s (SummarizeClicked :: es))) /\
  (forall o,
     onePanel (panels (handleAll timeValue typeError s (RequestSettled o :: es)))) /\
  (forall o,
     loadingSpinner (panels (summarizeSettled typeError o s)) = lit "none" /\
     placeholderCard (panels (summarizeSettled typeError o s)) = lit "none").
Proof.
  split; [|split].
  - apply (handleAll_panels timeValue typeError es
             (handle timeValue typeError s SummarizeClicked)), click_panels.
  - intro o.
    apply (handleAll_panels timeValue typeError es
             (handle timeValue typeError s (RequestSettled o))), settled_panels.
  - intro o; apply settled_panels.
Qed.

(** X12. When the result card is shown: the end of a request shows the
    result card exactly when the response was ok and its body has a string
    [summary]; then [innerHTML] is the formatted summary, the count is
    [messages_count] when that is truthy and otherwise ['~'] for a
    non-empty summary and [0] for an empty one, and the error text is left
    alone.  In every other case the error card is shown instead; an ok
    response without a string summary is reported as a network error. *)
Theorem result_shown_iff (typeError : Key -> Value -> jsstring) (o : Outcome)
    (s : State) :
  let s' := summarizeSettled typeError o s in
  (resultCard (panels s') = lit "block" <->
   exists data text,
     o = Responded true (Parsed data) /\
     getProp data summary = Some (VString text)) /\
  (errorCard (panels s') = lit "block" <->
   resultCard (panels s') <> lit "block") /\
  (forall data text count,
     o = Responded true (Parsed data) ->
     getProp data summary = Some (VString text) ->
     getProp data messages_count = Some count ->
     summaryContent (outputs s') = formatSummary text /\
     msgCount (outputs s') =
       (if truthy count then count
        else match text with
             | [] => VNumber PrimFloat.zero
             | _ :: _ => VString (lit "~")
             end) /\
     errorMessage (outputs s') = errorMessage (outputs s)) /\
  (forall data,
     o = Responded true (Parsed data) ->
     (forall text, getProp data summary <> Some (VString text)) ->
     errorMessage (outputs s') = networkError (typeError summary data) /\
     summaryContent (outputs s') = summaryContent (outputs s)).
Proof.
  cbv zeta; split; [|split; [|split]].
  - destruct o as [m|[|] [data|m]]; simpl;
      try (split; [intro Hb; vm_compute in Hb; discriminate Hb
                  |intros (d & t & Heq & _); discriminate Heq]).
    + destruct (summary_string_dec data) as [(text & Hs)|Hno].
      * destruct (displayResult_ok data text s Hs) as (c & r & _ & _ & Hf & _).
        pose proof (displayResult_panels data s) as Hp.
        destruct (displayResult data s) as [s1 threw]; simpl in *; subst threw.
        rewrite Hp; split; [intros _; now exists data, text | reflexivity].
      * destruct (displayResult_throws data s Hno) as [Ht _].
        destruct (displayResult data s) as [s1 threw]; simpl in *; subst threw.
        split; [intro Hb; vm_compute in Hb; discriminate Hb|].
        intros (d & t & Heq & Hs); inversion Heq; subst d.
        exfalso; now apply (Hno t).
    + destruct (getProp data error); simpl;
        (split; [intro Hb; vm_compute in Hb; discriminate Hb
                |intros (d & t & Heq & _); discriminate Heq]).
  - destruct o as [m|[|] [data|m]]; simpl;
      try (split; [intros _ Hb; vm_compute in Hb; discriminate Hb | reflexivity]).
    + pose proof (displayResult_panels data s) as Hp.
      destruct (displayResult data s) as [s1 [|]]; simpl in *.
      * split; [intros _ Hb; vm_compute in Hb; discriminate Hb | reflexivity].
      * rewrite Hp; simpl; split;
          [intro Hb; vm_compute in Hb; discriminate Hb
          |intro Hb; now contradiction Hb].
    + destruct (getProp data error); simpl;
        (split; [intros _ Hb; vm_compute in Hb; discriminate Hb | reflexivity]).
  - intros data text count -> Hs Hc; simpl.
    destruct (displayResult_ok data text s Hs) as (c & r & Hc' & _ & Hf & Ho).
    rewrite Hc in Hc'; inversion Hc'; subst c.
    destruct (displayResult data s) as [s1 threw]; simpl in *; subst threw.
    rewrite Ho; simpl; unfold orElse.
    repeat split; destruct (truthy count); try reflexivity.
    now destruct text.
  - intros data -> Hno; simpl.
    destruct (displayResult_throws data s Hno) as [Ht Ho].
    destruct (displayResult data s) as [s1 threw]; simpl in *; subst threw.
    simpl; now rewrite Ho.
Qed.

(** ** Requests *)

Lemma summarizeClick_body (s : State) (file : File) (rest : list File) :
  files (inputs s) = file :: rest ->
  snd (summarizeClick s) =
  Some {| url := BACKEND_URL ++ lit "/api/summarize";
          body := (lit "file", FormFile file) :: textFields (inputs s) |}.
Proof.
  intro Hf; unfold summarizeClick, textFields, appendIfSet; rewrite Hf.
  cbv zeta; cbn [snd filter fst].
  destruct (truthy (VString (startDate (inputs s))));
    destruct (truthy (VString (startTime (inputs s))));
    destruct (truthy (VString (endDate (inputs s))));
    destruct (truthy (VString (endTime (inputs s)))); reflexivity.
Qed.

(** X13. The request: the summarize button sends nothing and shows
    ['Please select a file first'] exactly when no file is chosen;
    otherwise it posts the first chosen file followed by the non-empty
    ones of start date, start time, end date and end time, in that order.
    After the clear button the request carries no date but still carries
    the times ['00:00'] and ['23:59']. *)
Theorem request_form (s : State) :
  (files (inputs s) = [] <-> snd (summarizeClick s) = None) /\
  (files (inputs s) = [] ->
   errorMessage (outputs (fst (summarizeClick s)))
   = VString (lit "Please select a file first")) /\
  (forall file rest,
     files (inputs s) = file :: rest ->
     snd (summarizeClick s) =
       Some {| url := BACKEND_URL ++ lit "/api/summarize";
               body := (lit "file", FormFile file) :: textFields (inputs s) |} /\
     snd (summarizeClick (clearDates s)) =
       Some {| url := BACKEND_URL ++ lit "/api/summarize";
               body := [(lit "file", FormFile file);
                        (lit "startTime", FormText (lit "00:00"));
                        (lit "endTime", FormText (lit "23:59"))] |}).
Proof.
  split; [|split].
  - unfold summarizeClick; destruct (files (inputs s)); simpl; split;
      intro Hx; try reflexivity; discriminate Hx.
  - intro Hf; unfold summarizeClick; now rewrite Hf.
  - intros file rest Hf; split; [now apply (summarizeClick_body s file rest)|].
    now rewrite (summarizeClick_body (clearDates s) file rest).
Qed.

(** X14. The keyboard shortcut: a key press sends a request only for
    Enter with Ctrl or Meta and a chosen file, and then does what a click
    on the button does; without a file it changes nothing, so it never
    shows the error a click without a file shows. *)
Theorem shortcut_needs_file (ctrlKey metaKey : bool) (key : jsstring)
    (s : State) :
  (files (inputs s) = [] -> keydown ctrlKey metaKey key s = (s, None)) /\
  (forall r,
     snd (keydown ctrlKey metaKey key s) = Some r ->
     (ctrlKey || metaKey) = true /\ key = lit "Enter" /\
     keydown ctrlKey metaKey key s = summarizeClick s /\
     exists file rest, files (inputs s) = file :: rest /\
                       hd_error (body r) = Some (lit "file", FormFile file)) /\
  outputs (fst (keydown ctrlKey metaKey key s)) = outputs s.
Proof.
  unfold keydown; split; [|split].
  - intros ->; now destruct (_ && _).
  - intros r Hr.
    destruct (ctrlKey || metaKey) eqn:Emod; simpl in *; [|discriminate Hr].
    destruct (str_eqb key (lit "Enter")) eqn:Ekey; [|discriminate Hr].
    apply str_eqb_eq in Ekey.
    destruct (files (inputs s)) as [|file rest] eqn:Ef; [discriminate Hr|].
    repeat split; try assumption.
    exists file, rest; split; [reflexivity|].
    rewrite (summarizeClick_body s file rest Ef) in Hr.
    now inversion Hr.
  - destruct (_ && _); [|reflexivity].
    destruct (files (inputs s)) eqn:Ef; [reflexivity|].
    unfold summarizeClick; now rewrite Ef.
Qed.

(** ** Dates *)

Lemma edit_orders_dates (timeValue : jsstring -> float)
    (typeError : Key -> Value -> jsstring) (s : State) (v : jsstring) :
  datesOrdered timeValue
    (inputs (handle timeValue typeError s (StartDateEdited v))) /\
  datesOrdered timeValue
    (inputs (handle timeValue typeError s (EndDateEdited v))).
Proof.
  split; simpl.
  - unfold startDateChange; cbv zeta; cbn [inputs set_inputs startDate endDate].
    destruct (truthy (VString (endDate (inputs s)))) eqn:Et; simpl.
    + destruct (PrimFloat.ltb (timeValue (endDate (inputs s))) (timeValue v)) eqn:El.
      * intros _ _; simpl; apply ltb_irrefl.
      * intros _ _; exact El.
    + intros _ He; simpl in He.
      destruct (endDate (inputs s)); [now contradiction He | discriminate Et].
  - unfold endDateChange; cbv zeta; cbn [inputs set_inputs startDate endDate].
    destruct (truthy (VString (startDate (inputs s)))) eqn:Et; simpl.
    + destruct (PrimFloat.ltb (timeValue v) (timeValue (startDate (inputs s)))) eqn:El.
      * intros _ _; simpl; apply ltb_irrefl.
      * intros _ _; exact El.
    + intros Hs _; simpl in Hs.
      destruct (startDate (inputs s)); [now contradiction Hs | discriminate Et].
Qed.

Lemma handle_dates (timeValue : jsstring -> float)
    (typeError : Key -> Value -> jsstring) (s : State) (e : Event) :
  datesOrdered timeValue (inputs s) ->
  datesOrdered timeValue (inputs (handle timeValue typeError s e)).
Proof.
  intro Hord; destruct e; simpl; try exact Hord.
  - unfold fileChange; now destruct (files (inputs (set_files s fs))).
  - unfold drop, fileChange.
    now destruct (files (inputs (set_files (dragLeave s) fs))).
  - intros Hs; now contradiction Hs.
  - apply (edit_orders_dates timeValue typeError s v).
  - apply (edit_orders_dates timeValue typeError s v).
  - unfold summarizeClick; now destruct (files (inputs s)).
  - unfold keydown; destruct (_ && _); [|exact Hord].
    destruct (files (inputs s)) eqn:Ef; [exact Hord|].
    unfold summarizeClick; now rewrite Ef.
  - now rewrite (proj1 (settled_inputs typeError o s)).
Qed.

Lemma handleAll_dates (timeValue : jsstring -> float)
    (typeError : Key -> Value -> jsstring) (es : list Event) (s : State) :
  datesOrdered timeValue (inputs s) ->
  datesOrdered timeValue (inputs (handleAll timeValue typeError s es)).
Proof.
  revert s; induction es as [|e es IH]; intros s Hord; [exact Hord|].
  apply IH, handle_dates, Hord.
Qed.

(** X15. Dates stay ordered: editing a date or clearing the dates leaves
    the start date not after the end date whenever both are set, as the
    listeners compare them, whatever the page held before: the listener
    moves the other date onto the edited one.  Once that holds it holds
    after any sequence of events, and when both inputs hold dates that
    parse, the start time value is at most the end time value. *)
Theorem dates_stay_ordered (timeValue : jsstring -> float)
    (typeError : Key -> Value -> jsstring) (s : State) (es : list Event) :
  datesOrdered timeValue (inputs s) ->
  let i := inputs (handleAll timeValue typeError s es) in
  datesOrdered timeValue i /\
  (startDate i <> [] -> endDate i <> [] ->
   isNumber (timeValue (startDate i)) = true ->
   isNumber (timeValue (endDate i)) = true ->
   PrimFloat.leb (timeValue (startDate i)) (timeValue (endDate i)) = true) /\
  (forall s0 e,
     (exists v, e = StartDateEdited v \/ e = EndDateEdited v) \/ e = ClearClicked ->
     datesOrdered timeValue (inputs (handle timeValue typeError s0 e))).
Proof.
  intros Hord0; cbv zeta.
  assert (Hord : datesOrdered timeValue
                   (inputs (handleAll timeValue typeError s es)))
    by now apply handleAll_dates.
  split; [exact Hord|split].
  - intros Hs' He' Hns Hne; apply not_ltb_leb; try assumption.
    now apply Hord.
  - intros s0 e [(v & [-> | ->]) | ->].
    + apply edit_orders_dates.
    + apply edit_orders_dates.
    + intros Hs; now contradiction Hs.
Qed.

(** An end date, then a later start date: the end date follows. *)
Lemma dates_stay_ordered_witness :
  endDate (inputs (handleAll sampleTimeValue sampleTypeError samplePage
                     [EndDateEdited (lit "2024-01-05");
                      StartDateEdited (lit "2024-01-07")]))
  = lit "2024-01-07" /\
  datesOrdered sampleTimeValue
    (inputs (handleAll sampleTimeValue sampleTypeError samplePage
               [EndDateEdited (lit "2024-01-05");
                StartDateEdited (lit "2024-01-07")])).
Proof.
  split; [vm_compute; reflexivity|].
  destruct (dates_stay_ordered sampleTimeValue sampleTypeError samplePage
              [EndDateEdited (lit "2024-01-05");
               StartDateEdited (lit "2024-01-07")]) as (Hord & _).
  - intros Hs; now contradiction Hs.
  - exact Hord.
Defined.

(** ** Files *)

(** X16. Dropped files: after a drop the file label is no longer
    highlighted and the dropped files are the input's; the file name line
    shows a check mark and the name of the first file with the class
    [success], or ['No file chosen'] without it for an empty drop; and a
    click on the summarize button then sends that first file. *)
Theorem drop_selects_files (dropped : list File) (s : State) :
  let s' := drop dropped s in
  files (inputs s') = dropped /\
  contains (fileLabel_classList (labels s')) (lit "drag-over") = false /\
  contains (fileName_classList (labels s')) (lit "success")
  = match dropped with [] => false | _ :: _ => true end /\
  fileName_textContent (labels s')
  = match dropped with
    | [] => lit "No file chosen"
    | file :: _ => [10003; 32]%N ++ name file
    end /\
  panels s' = panels s /\
  (forall file rest,
     dropped = file :: rest ->
     exists r, snd (summarizeClick s') = Some r /\
               hd_error (body r) = Some (lit "file", FormFile file)).
Proof.
  cbv zeta; unfold drop, fileChange.
  destruct dropped as [|file rest]; cbn [set_files inputs set_inputs files];
    repeat split; try reflexivity;
    try apply contains_remove; try apply contains_add.
  - intros f r Hd; discriminate Hd.
  - intros f r Hd; inversion Hd; subst f r.
    eexists; split; [now apply (summarizeClick_body _ file rest) | reflexivity].
Qed.

(** ** Menu *)

Lemma menuHandle_step (m : Menu) (e : MenuEvent) :
  contains (hamburger m) (lit "active") = contains (navMenu m) (lit "active") ->
  contains (hamburger (menuHandle m e)) (lit "active")
  = contains (navMenu (menuHandle m e)) (lit "active").
Proof.
  intro Hsync; destruct e; simpl.
  - now rewrite !contains_toggle, Hsync.
  - now rewrite !contains_remove.
Qed.

(** X17. Menu and icon in step: when the hamburger icon and the menu
    agree on the class [active], they agree after any sequence of clicks
    on the icon and on menu links; a click on the icon flips both and a
    click on a link closes both. *)
Theorem menu_in_step (m : Menu) (es : list MenuEvent) :
  contains (hamburger m) (lit "active") = contains (navMenu m) (lit "active") ->
  contains (hamburger (fold_left menuHandle es m)) (lit "active")
  = contains (navMenu (fold_left menuHandle es m)) (lit "active") /\
  menuOpen (hamburgerClick (fold_left menuHandle es m))
  = negb (menuOpen (fold_left menuHandle es m)) /\
  menuOpen (navLinkClick (fold_left menuHandle es m)) = false.
Proof.
  intro Hsync; split; [|split].
  - revert m Hsync; induction es as [|e es IH]; intros m Hsync; [exact Hsync|].
    apply IH, menuHandle_step, Hsync.
  - apply contains_toggle.
  - apply contains_remove.
Qed.

(** A closed menu, opened and closed by a link. *)
Lemma menu_in_step_witness :
  menuOpen (navLinkClick
    (fold_left menuHandle [HamburgerClicked]
       {| hamburger := [lit "hamburger"]; navMenu := [lit "nav-menu"] |}))
  = false.
Proof.
  apply (menu_in_step {| hamburger := [lit "hamburger"];
                         navMenu := [lit "nav-menu"] |} [HamburgerClicked]).
  reflexivity.
Defined.

(** ** Copy button *)

Lemma copied_iter (n : nat) (b : CopyButton) :
  Nat.iter (S n) copied b
  = {| copyBtn_innerHTML := COPIED;
       pending := pending b ++ copyBtn_innerHTML b :: repeat COPIED n |}.
Proof.
  induction n as [|n IH]; [reflexivity|].
  change (Nat.iter (S (S n)) copied b) with (copied (Nat.iter (S n) copied b)).
  rewrite IH; unfold copied; cbn [pending copyBtn_innerHTML].
  rewrite <- app_assoc; cbn [app repeat].
  now rewrite (repeat_cons n COPIED).
Qed.

Lemma last_cons (l : list jsstring) (t d : jsstring) :
  last (t :: l) d = last l t.
Proof.
  revert t d; induction l as [|u l IH]; intros t d; [reflexivity|].
  change (last (t :: u :: l) d) with (last (u :: l) d).
  now rewrite (IH u d), (IH u t).
Qed.

Lemma timers_run_out (l : list jsstring) (label : jsstring) :
  Nat.iter (List.length l) timerFired
    {| copyBtn_innerHTML := label; pending := l |}
  = {| copyBtn_innerHTML := last l label; pending := [] |}.
Proof.
  revert label; induction l as [|t l IH]; intro label; [reflexivity|].
  cbn [List.length]; rewrite Nat.iter_succ_r.
  unfold timerFired at 2; cbn [pending]; rewrite IH.
  now rewrite (last_cons l t label).
Qed.

Lemma last_repeat (n : nat) (a d : jsstring) :
  last (repeat a (S n)) d = a.
Proof.
  induction n as [|n IH]; [reflexivity|].
  change (repeat a (S (S n))) with (a :: repeat a (S n)).
  change (last (a :: repeat a (S n)) d) with (last (repeat a (S n)) d).
  exact IH.
Qed.

(** X18. The copy label: with no timer pending, one successful copy and
    its timer give the button its label back; but when further copies
    succeed before the first timer runs, every later timer has saved the
    text ['Copied!'], and after all timers have run the button shows
    ['Copied!'] for good. *)
Theorem copy_label_after_timers (b : CopyButton) (n : nat) :
  pending b = [] ->
  Nat.iter (S n) timerFired (Nat.iter (S n) copied b)
  = {| copyBtn_innerHTML := match n with
                            | O => copyBtn_innerHTML b
                            | S _ => COPIED
                            end;
       pending := [] |}.
Proof.
  intro Hp; rewrite copied_iter, Hp; cbn [app].
  pose proof (timers_run_out (copyBtn_innerHTML b :: repeat COPIED n) COPIED)
    as Hrun.
  cbn [List.length] in Hrun; rewrite repeat_length in Hrun; rewrite Hrun.
  f_equal; destruct n as [|n]; [reflexivity|].
  change (last (copyBtn_innerHTML b :: repeat COPIED (S n)) COPIED)
    with (last (repeat COPIED (S n)) COPIED).
  apply last_repeat.
Qed.

(** Two copies in a row on a button labelled "Copy". *)
Lemma copy_label_after_timers_witness :
  copyBtn_innerHTML
    (Nat.iter 2 timerFired
       (Nat.iter 2 copied {| copyBtn_innerHTML := lit "Copy"; pending := [] |}))
  = COPIED.
Proof.
  now rewrite (copy_label_after_timers
                 {| copyBtn_innerHTML := lit "Copy"; pending := [] |} 1 eq_refl).
Defined.

End PageProperties.
